(** * The InspectorIssues gatherer of Lighthouse

  A shallow embedding of
  [lighthouse-core/gather/gatherers/inspector-issues.js]: the gatherer
  buffers every [Audits.issueAdded] event of a protocol session and
  [_getArtifact] sorts the buffered issues into fifteen categories,
  dropping a detail whose request is not in the network records.

  The issues come off the DevTools protocol, so they are modelled as
  arbitrary JavaScript values; the network records are Lighthouse's own
  and keep their declared type. *)

From Stdlib Require Import PrimFloat.

From stdpp Require Import base list strings.

Set Warnings "-register-all".
Local Open Scope string_scope.
Local Open Scope list_scope.

(** ** JavaScript values *)

Module JS.

(** The values a protocol message can hold, and [undefined], which a
    property read yields for a property that is not there.  A number is
    an IEEE 754 double, an object its own properties in insertion
    order. *)
Inductive value : Type :=
| VUndefined
| VNull
| VBool (b : bool)
| VNum (n : float)
| VStr (s : string)
| VArr (elems : list value)
| VObj (props : list (string * value)).

(** An exception: the [TypeError] of a property read on [undefined] or
    [null] (it names the property), or the error a protocol command was
    rejected with. *)
Inductive error : Type :=
| TypeError (reading : string)
| ProtocolError (message : string).

(** How an evaluation ends: normally with a value, or abruptly. *)
Inductive completion (A : Type) : Type :=
| Normal (a : A)
| Throw (e : error).
Arguments Normal {A} a.
Arguments Throw {A} e.

#[global] Instance completion_ret : MRet completion := @Normal.
#[global] Instance completion_bind : MBind completion :=
  fun A B k m => match m with Normal a => k a | Throw e => Throw e end.
#[global] Instance completion_fmap : FMap completion :=
  fun A B f m => match m with Normal a => Normal (f a) | Throw e => Throw e end.

(** [ToBoolean]: [undefined], [null], [false], [+0], [-0], [NaN] and the
    empty string are falsy, everything else is truthy. *)
Definition ToBoolean (v : value) : bool :=
  match v with
  | VUndefined | VNull => false
  | VBool b => b
  | VNum n => negb (is_zero n || is_nan n)
  | VStr s => negb (String.eqb s "")
  | VArr _ | VObj _ => true
  end.

Definition nullish (v : value) : bool :=
  match v with
  | VUndefined | VNull => true
  | _ => false
  end.

Fixpoint own_property (props : list (string * value)) (p : string)
  : option value :=
  match props with
  | [] => None
  | (k, v) :: rest => if String.eqb k p then Some v else own_property rest p
  end.

(** [v[p]] on a value that is neither [undefined] nor [null].  The
    gatherer reads [issue], [details], the fifteen detail keys, [request]
    and [requestId]: none is an index, [length] or a name found on a
    built-in prototype, so only an object's own properties answer. *)
Definition get_prop (v : value) (p : string) : value :=
  match v with
  | VObj props => default VUndefined (own_property props p)
  | _ => VUndefined
  end.

(** [v[p]]: a [TypeError] on [undefined] and [null]. *)
Definition Get (v : value) (p : string) : completion value :=
  if nullish v then Throw (TypeError p) else Normal (get_prop v p).

(** [Object.prototype.hasOwnProperty.call(v, p)], for the same property
    names; [v] is never [undefined] or [null] where the gatherer calls
    it. *)
Definition hasOwnProperty (v : value) (p : string) : bool :=
  match v with
  | VObj props => bool_decide (is_Some (own_property props p))
  | _ => false
  end.

(** [s === v] for a string [s]. *)
Definition strict_equals_string (s : string) (v : value) : bool :=
  match v with
  | VStr t => String.eqb s t
  | _ => false
  end.

(** [for (const x of xs) body], threading the state the body updates and
    stopping at the first exception. *)
Fixpoint for_of {A S : Type} (xs : list A) (body : S -> A -> completion S)
  (s : S) : completion S :=
  match xs with
  | [] => Normal s
  | x :: rest => s' ← body s x; for_of rest body s'
  end.

(** [xs.map(f)] for a callback that may throw. *)
Fixpoint array_map {A B : Type} (f : A -> completion B) (xs : list A)
  : completion (list B) :=
  match xs with
  | [] => Normal []
  | x :: rest => y ← f x; ys ← array_map f rest; Normal (y :: ys)
  end.

End JS.

Import JS.

(** ** The collaborators *)

(** A network record, as [LH.Artifacts.NetworkRequest] declares it; the
    gatherer reads [requestId] only. *)
Record NetworkRequest : Type := {
  requestId : string;
  url : string;
  statusCode : Z
}.

(** A function object registered as a listener, told apart by identity. *)
Definition listener : Type := nat.

(** A call made on the session. *)
Inductive call : Type :=
| CallOn (event : string) (l : listener)
| CallOff (event : string) (l : listener)
| CallSendCommand (method : string).

(** Modelled from the spec: the protocol session, a collaborator of the
    gatherer defined outside its source file: an object exposing [on(eventName, handler)],
    [off(eventName, handler)] and [sendCommand(command)], the last one
    succeeding or failing as the remote end decides; unregistering a
    handler that is not present is a no-op.  [calls] records every call
    made on the session, oldest first. *)
Record Session : Type := {
  listeners : list (string * listener);
  calls : list call;
  respond : string -> completion value
}.

Definition same_listener (event : string) (l : listener)
  (entry : string * listener) : bool :=
  String.eqb (fst entry) event && Nat.eqb (snd entry) l.

(** Drops the first entry of [ls] that [same_listener] accepts. *)
Fixpoint remove_first (event : string) (l : listener)
  (ls : list (string * listener)) : list (string * listener) :=
  match ls with
  | [] => []
  | entry :: rest =>
      if same_listener event l entry then rest
      else entry :: remove_first event l rest
  end.

Definition session_on (event : string) (l : listener) (s : Session)
  : Session :=
  {| listeners := listeners s ++ [(event, l)];
     calls := calls s ++ [CallOn event l];
     respond := respond s |}.

(** Removes the most recently added registration of [l], if any. *)
Definition session_off (event : string) (l : listener) (s : Session)
  : Session :=
  {| listeners := rev (remove_first event l (rev (listeners s)));
     calls := calls s ++ [CallOff event l];
     respond := respond s |}.

(** [await session.sendCommand(method)]: a rejection is thrown at the
    [await]. *)
Definition session_sendCommand (method : string) (s : Session)
  : Session * completion value :=
  ({| listeners := listeners s;
      calls := calls s ++ [CallSendCommand method];
      respond := respond s |},
   respond s method).

(** ** The gatherer *)

(** The instance state: the buffer [_issues] and the bound callback
    [_onIssueAdded], a function object of the instance's own. *)
Record InspectorIssues : Type := {
  _issues : list value;
  _onIssueAdded : listener
}.

(** [constructor()], for the instance whose bound callback is [l]. *)
Definition constructor (l : listener) : InspectorIssues :=
  {| _issues := []; _onIssueAdded := l |}.

(** [onIssueAdded(entry)]: [this._issues.push(entry.issue)]. *)
Definition onIssueAdded (this : InspectorIssues) (entry : value)
  : completion InspectorIssues :=
  issue ← Get entry "issue";
  Normal {| _issues := _issues this ++ [issue];
            _onIssueAdded := _onIssueAdded this |}.

(** [startInstrumentation(context)], on [context.driver.defaultSession]. *)
Definition startInstrumentation (this : InspectorIssues) (session : Session)
  : Session * completion unit :=
  let session := session_on "Audits.issueAdded" (_onIssueAdded this) session in
  let '(session, sent) := session_sendCommand "Audits.enable" session in
  (session, _ ← sent; Normal tt).

(** [stopInstrumentation(context)]. *)
Definition stopInstrumentation (this : InspectorIssues) (session : Session)
  : Session * completion unit :=
  let session := session_off "Audits.issueAdded" (_onIssueAdded this) session in
  let '(session, sent) := session_sendCommand "Audits.disable" session in
  (session, _ ← sent; Normal tt).

(** The artifact: a JavaScript object, its properties in insertion order,
    each holding an array of details. *)
Definition Artifact : Type := list (string * list value).

Definition Object_keys (artifact : Artifact) : list string :=
  map fst artifact.

(** [artifact[key]], the empty sequence standing for a missing property. *)
Fixpoint category (key : string) (artifact : Artifact) : list value :=
  match artifact with
  | [] => []
  | (k, details) :: rest =>
      if String.eqb k key then details else category key rest
  end.

(** [artifact[key].push(detail)]. *)
Fixpoint push (artifact : Artifact) (key : string) (detail : value)
  : Artifact :=
  match artifact with
  | [] => []
  | (k, details) :: rest =>
      if String.eqb k key then (k, details ++ [detail]) :: rest
      else (k, details) :: push rest key detail
  end.

(** The object literal [_getArtifact] starts from. *)
Definition empty_artifact : Artifact :=
  [ ("sameSiteCookieIssue", []);
    ("mixedContentIssue", []);
    ("blockedByResponseIssue", []);
    ("heavyAdIssue", []);
    ("contentSecurityPolicyIssue", []);
    ("sharedArrayBufferIssue", []);
    ("twaQualityEnforcement", []);
    ("lowTextContrastIssue", []);
    ("corsIssue", []);
    ("attributionReportingIssue", []);
    ("quirksModeIssue", []);
    ("navigatorUserAgentIssue", []);
    ("wasmCrossOriginModuleSharingIssue", []);
    ("genericIssue", []);
    ("deprecationIssue", []) ].

(** The name of the property of [issue.details] that holds the details of
    category [key]. *)
Definition detailsKey (key : string) : string :=
  if String.eqb key "wasmCrossOriginModuleSharingIssue" then key
  else key +:+ "Details".

(** [networkRecords.find(req => req.requestId === requestId)]. *)
Definition find_record (networkRecords : list NetworkRequest)
  (rid : value) : option NetworkRequest :=
  List.find (fun req => strict_equals_string (requestId req) rid)
    networkRecords.

(** The body of the loop over [allDetails], for category [key]. *)
Definition visit_detail (networkRecords : list NetworkRequest) (key : string)
  (artifact : Artifact) (detail : value) : completion Artifact :=
  if ToBoolean detail then
    if hasOwnProperty detail "request" then
      request ← Get detail "request";
      rid ← Get request "requestId";
      if ToBoolean rid && bool_decide (is_Some (find_record networkRecords rid))
      then Normal (push artifact key detail)
      else Normal artifact
    else Normal (push artifact key detail)
  else Normal artifact.

(** The body of the loop over [keys]. *)
Definition visit_key (issues : list value)
  (networkRecords : list NetworkRequest) (artifact : Artifact) (key : string)
  : completion Artifact :=
  let detailsKey := detailsKey key in
  allDetails ←
    array_map (fun issue => details ← Get issue "details";
                            Get details detailsKey) issues;
  for_of allDetails (visit_detail networkRecords key) artifact.

(** [_getArtifact(networkRecords)]; a rejected promise is a [Throw]. *)
Definition _getArtifact (this : InspectorIssues)
  (networkRecords : list NetworkRequest) : completion Artifact :=
  let artifact := empty_artifact in
  let keys := Object_keys artifact in
  for_of keys (visit_key (_issues this) networkRecords) artifact.

(** [afterPass(passContext, loadData)], given [loadData.networkRecords]. *)
Definition afterPass (this : InspectorIssues) (session : Session)
  (networkRecords : list NetworkRequest) : Session * completion Artifact :=
  let '(session, stopped) := stopInstrumentation this session in
  (session, _ ← stopped; _getArtifact this networkRecords).

(** [getArtifact(context)]; [resolved] is how the promise of
    [NetworkRecords.request(devtoolsLog, context)], a computed artifact
    defined outside the gatherer's source file, settles. *)
Definition getArtifact (this : InspectorIssues)
  (resolved : completion (list NetworkRequest)) : completion Artifact :=
  networkRecords ← resolved;
  _getArtifact this networkRecords.

(** ** What a run of [_getArtifact] reads and keeps *)

(** [issue.details[detailsKey]] for category [key], when the reads do not
    throw. *)
Definition subfield (key : string) (issue : value) : value :=
  get_prop (get_prop issue "details") (detailsKey key).

(** [issue.details] can be read and indexed. *)
Definition details_readable (issue : value) : bool :=
  negb (nullish issue) && negb (nullish (get_prop issue "details")).

(** The detail carries a request reference: it is truthy and has a
    [request] property of its own. *)
Definition carries_request (detail : value) : bool :=
  ToBoolean detail && hasOwnProperty detail "request".

(** [detail.request.requestId], when the reads do not throw. *)
Definition referenced_id (detail : value) : value :=
  get_prop (get_prop detail "request") "requestId".

(** [detail.request.requestId] can be read wherever the loop reads it. *)
Definition request_readable (detail : value) : bool :=
  negb (carries_request detail && nullish (get_prop detail "request")).

(** No read made for the issue throws, in any category. *)
Definition well_formed_issue (issue : value) : bool :=
  details_readable issue &&
  forallb (fun key => request_readable (subfield key issue))
    (Object_keys empty_artifact).

Definition well_formed (issues : list value) : bool :=
  forallb well_formed_issue issues.

(** Some network record has request identifier [s]. *)
Definition known_request (networkRecords : list NetworkRequest) (s : string)
  : Prop :=
  exists req, In req networkRecords /\ requestId req = s.

(** The request filter: a truthy identifier that [find] finds. *)
Definition request_matches (networkRecords : list NetworkRequest)
  (rid : value) : bool :=
  ToBoolean rid && bool_decide (is_Some (find_record networkRecords rid)).

(** The detail is pushed by the loop body. *)
Definition kept (networkRecords : list NetworkRequest) (detail : value)
  : bool :=
  ToBoolean detail &&
  (negb (hasOwnProperty detail "request") ||
   request_matches networkRecords (referenced_id detail)).

(** What [issue] adds to category [key]. *)
Definition contribution (networkRecords : list NetworkRequest) (key : string)
  (issue : value) : option value :=
  if kept networkRecords (subfield key issue) then Some (subfield key issue)
  else None.

(** The category [key] filled from a buffer, in buffer order. *)
Definition contributions (networkRecords : list NetworkRequest)
  (key : string) (issues : list value) : list value :=
  omap (contribution networkRecords key) issues.

(** [push], repeated over a sequence of details. *)
Definition push_all (artifact : Artifact) (key : string)
  (details : list value) : Artifact :=
  fold_left (fun artifact detail => push artifact key detail) details artifact.

(** No read made for category [key] throws. *)
Definition key_readable (issues : list value) (key : string) : bool :=
  forallb details_readable issues &&
  forallb (fun issue => request_readable (subfield key issue)) issues.

(** The artifact after the loop over [keys], when no read throws. *)
Definition filled (networkRecords : list NetworkRequest)
  (issues : list value) (keys : list string) (artifact : Artifact)
  : Artifact :=
  fold_left
    (fun artifact key =>
       push_all artifact key (contributions networkRecords key issues))
    keys artifact.

(** ** Runs on a heap *)

(** [_getArtifact] once more, with the arrays as the objects they are: the
    heap holds the contents of every array, an array is known by its
    address, a literal [[]] allocates and [push] writes to the heap.  The
    run reads the buffer through [this._issues] and fills arrays of its
    own; it writes to no issue, so the issues stay values. *)
Module Heap.

(** The address of an array. *)
Abbreviation loc := nat (only parsing).

(** The arrays allocated so far, each at the address of its position. *)
Abbreviation heap := (list (list value)) (only parsing).

Definition read (h : heap) (l : loc) : list value := default [] (h !! l).

(** [[]]: a new array, at the next address. *)
Definition new_array (h : heap) : loc * heap := (length h, h ++ [[]]).

(** [array.push(v)] on the array at [l]. *)
Definition array_push (l : loc) (v : value) (h : heap) : heap :=
  <[l := read h l ++ [v]]> h.

(** The artifact: an object whose properties hold arrays. *)
Definition ArtifactObject : Type := list (string * loc).

(** [artifact[key]]. *)
Fixpoint property (artifact : ArtifactObject) (key : string) : option loc :=
  match artifact with
  | [] => None
  | (k, l) :: rest => if String.eqb k key then Some l else property rest key
  end.

(** An object literal with one [[]] for each key, evaluated in order. *)
Fixpoint object_literal (keys : list string) (h : heap)
  : ArtifactObject * heap :=
  match keys with
  | [] => ([], h)
  | key :: rest =>
      let '(l, h) := new_array h in
      let '(artifact, h) := object_literal rest h in
      ((key, l) :: artifact, h)
  end.

(** [artifact[key].push(detail)]. *)
Definition push (artifact : ArtifactObject) (key : string) (detail : value)
  (h : heap) : completion heap :=
  match property artifact key with
  | Some l => Normal (array_push l detail h)
  | None => Throw (TypeError "push")
  end.

(** The body of the loop over [allDetails]. *)
Definition visit_detail (networkRecords : list NetworkRequest)
  (artifact : ArtifactObject) (key : string) (h : heap) (detail : value)
  : completion heap :=
  if ToBoolean detail then
    if hasOwnProperty detail "request" then
      request ← Get detail "request";
      rid ← Get request "requestId";
      if ToBoolean rid && bool_decide (is_Some (find_record networkRecords rid))
      then push artifact key detail h
      else Normal h
    else push artifact key detail h
  else Normal h.

(** The body of the loop over [keys]; [buffer] is the array
    [this._issues]. *)
Definition visit_key (buffer : loc) (networkRecords : list NetworkRequest)
  (artifact : ArtifactObject) (h : heap) (key : string) : completion heap :=
  let detailsKey := detailsKey key in
  allDetails ←
    array_map (fun issue => details ← Get issue "details";
                            Get details detailsKey) (read h buffer);
  for_of allDetails (visit_detail networkRecords artifact key) h.

(** [_getArtifact(networkRecords)] on the gatherer whose [_issues] is the
    array at [buffer]: the artifact object and the heap the run leaves. *)
Definition _getArtifact (buffer : loc)
  (networkRecords : list NetworkRequest) (h : heap)
  : completion (ArtifactObject * heap) :=
  let '(artifact, h) := object_literal (Object_keys empty_artifact) h in
  let keys := map fst artifact in
  h ← for_of keys (visit_key buffer networkRecords artifact) h;
  Normal (artifact, h).

(** What the arrays of an artifact object hold. *)
Definition contents (artifact : ArtifactObject) (h : heap) : Artifact :=
  map (fun entry => (fst entry, read h (snd entry))) artifact.

(** The object [o] holds in the heap [h] what the artifact [a] holds, in
    arrays of its own that are none of the arrays of [h0], the heap the
    run started in, and those are as they were. *)
Definition represents (h0 : heap) (o : ArtifactObject) (h : heap)
  (a : Artifact) : Prop :=
  contents o h = a /\
  NoDup (map snd o) /\
  (forall l, In l (map snd o) -> length h0 <= l < length h) /\
  (forall l, l < length h0 -> h !! l = h0 !! l).

(** Two evaluations end alike: both normally, with related results, or
    both with the same exception. *)
Definition agree {S T : Type} (R : S -> T -> Prop)
  (c1 : completion S) (c2 : completion T) : Prop :=
  match c1, c2 with
  | Normal s, Normal t => R s t
  | Throw e1, Throw e2 => e1 = e2
  | _, _ => False
  end.

End Heap.

(** * Properties *)

(** ** The artifact as an object *)

Section ArtifactObject.

Implicit Types (artifact : Artifact) (key : string) (detail : value).

Lemma Object_keys_push artifact key detail :
  Object_keys (push artifact key detail) = Object_keys artifact.
Proof.
  induction artifact as [|[k ds] rest IH]; simpl; [done|].
  destruct (String.eqb k key); simpl; [done|]. by rewrite IH.
Qed.

Lemma category_push_eq artifact key detail :
  In key (Object_keys artifact) ->
  category key (push artifact key detail) = category key artifact ++ [detail].
Proof.
  induction artifact as [|[k ds] rest IH]; simpl; [done|].
  intros Hin. destruct (String.eqb k key) eqn:E; simpl; rewrite E; [done|].
  destruct Hin as [->|Hin]; [|by apply IH].
  by rewrite String.eqb_refl in E.
Qed.

Lemma category_push_ne artifact key key' detail :
  key <> key' ->
  category key' (push artifact key detail) = category key' artifact.
Proof.
  intros Hne. induction artifact as [|[k ds] rest IH]; simpl; [done|].
  destruct (String.eqb k key) eqn:E; simpl.
  - apply String.eqb_eq in E as ->.
    by destruct (String.eqb_spec key key').
  - by rewrite IH.
Qed.

Lemma Object_keys_push_all artifact key details :
  Object_keys (push_all artifact key details) = Object_keys artifact.
Proof.
  revert artifact. induction details as [|d ds IH]; intros a; simpl; [done|].
  by rewrite IH, Object_keys_push.
Qed.

Lemma category_push_all_eq artifact key details :
  In key (Object_keys artifact) ->
  category key (push_all artifact key details)
  = category key artifact ++ details.
Proof.
  revert artifact. induction details as [|d ds IH]; intros a Hin; simpl.
  - by rewrite app_nil_r.
  - rewrite IH by (by rewrite Object_keys_push).
    rewrite category_push_eq by done. by rewrite <- app_assoc.
Qed.

Lemma category_push_all_ne artifact key key' details :
  key <> key' ->
  category key' (push_all artifact key details) = category key' artifact.
Proof.
  intros Hne. revert artifact.
  induction details as [|d ds IH]; intros a; simpl; [done|].
  by rewrite IH, category_push_ne.
Qed.

(** An object is its keys and what they hold. *)
Lemma artifact_ext artifact (f : string -> list value) :
  NoDup (Object_keys artifact) ->
  (forall key, In key (Object_keys artifact) -> category key artifact = f key) ->
  artifact = map (fun key => (key, f key)) (Object_keys artifact).
Proof.
  induction artifact as [|[k ds] rest IH]; simpl; [done|].
  intros Hnd Hcat. apply NoDup_cons in Hnd as [Hk Hnd]. f_equal.
  - specialize (Hcat k (or_introl eq_refl)).
    rewrite String.eqb_refl in Hcat. by rewrite Hcat.
  - apply IH; [done|]. intros key Hin. rewrite <- Hcat by (by right).
    destruct (String.eqb_spec k key) as [->|]; [|done].
    destruct Hk. by apply list_elem_of_In.
Qed.

End ArtifactObject.

(** ** The loops *)

Section Loops.

Variable networkRecords : list NetworkRequest.

Lemma visit_detail_readable key artifact detail :
  request_readable detail = true ->
  visit_detail networkRecords key artifact detail
  = Normal (if kept networkRecords detail then push artifact key detail
            else artifact).
Proof.
  unfold request_readable, carries_request, visit_detail, kept,
    request_matches, referenced_id, Get.
  destruct (ToBoolean detail) eqn:Ht; simpl; [|done].
  destruct (hasOwnProperty detail "request"); simpl; [|done].
  assert (nullish detail = false) as ->
    by (by destruct detail; simpl in *).
  simpl. intros Hr. apply negb_true_iff in Hr. rewrite Hr. simpl.
  by destruct (ToBoolean _ && _).
Qed.

Lemma visit_detail_unreadable key artifact detail :
  request_readable detail = false ->
  visit_detail networkRecords key artifact detail
  = Throw (TypeError "requestId").
Proof.
  unfold request_readable, carries_request, visit_detail, Get.
  intros Hr. apply negb_false_iff, andb_true_iff in Hr as [Hc Hn].
  apply andb_true_iff in Hc as [Ht Hh].
  assert (nullish detail = false) as ->
    by (by destruct detail; simpl in *).
  rewrite Ht, Hh. simpl. by rewrite Hn.
Qed.

(** The inner loop, run on the sub-fields of a buffer whose request
    references can all be read: it pushes the contributions, in buffer
    order. *)
Lemma for_of_details_readable key issues artifact :
  forallb (fun issue => request_readable (subfield key issue)) issues = true ->
  for_of (map (subfield key) issues) (visit_detail networkRecords key) artifact
  = Normal (push_all artifact key (contributions networkRecords key issues)).
Proof.
  revert artifact. induction issues as [|issue rest IH]; intros a; simpl;
    [done|].
  intros [Hr Hrest]%andb_true_iff.
  rewrite visit_detail_readable by done. simpl.
  rewrite IH by done. unfold contributions, contribution. simpl.
  by destruct (kept networkRecords (subfield key issue)).
Qed.

Lemma for_of_details_unreadable key issues artifact :
  forallb (fun issue => request_readable (subfield key issue)) issues = false ->
  for_of (map (subfield key) issues) (visit_detail networkRecords key) artifact
  = Throw (TypeError "requestId").
Proof.
  revert artifact. induction issues as [|issue rest IH]; intros a; simpl;
    [done|].
  destruct (request_readable (subfield key issue)) eqn:Hr; simpl.
  - intros Hrest. rewrite visit_detail_readable by done. simpl. by apply IH.
  - intros _. by rewrite visit_detail_unreadable.
Qed.

(** The [map] over the buffer reads every sub-field, or throws. *)
Lemma array_map_details_readable key issues :
  forallb details_readable issues = true ->
  array_map (fun issue => details ← Get issue "details";
                          Get details (detailsKey key)) issues
  = Normal (map (subfield key) issues).
Proof.
  induction issues as [|issue rest IH]; simpl; [done|].
  intros [Hd Hrest]%andb_true_iff. rewrite IH by done.
  unfold details_readable in Hd.
  apply andb_true_iff in Hd as [Hi%negb_true_iff Hd%negb_true_iff].
  unfold Get. rewrite Hi. simpl. by rewrite Hd.
Qed.

Lemma array_map_details_unreadable key issues :
  forallb details_readable issues = false ->
  exists e,
    array_map (fun issue => details ← Get issue "details";
                            Get details (detailsKey key)) issues
    = Throw e.
Proof.
  induction issues as [|issue rest IH]; simpl; [done|].
  destruct (details_readable issue) eqn:Hd; simpl.
  - intros [e He]%IH. exists e. rewrite He.
    unfold details_readable in Hd.
    apply andb_true_iff in Hd as [Hi%negb_true_iff Hd%negb_true_iff].
    unfold Get. rewrite Hi. simpl. by rewrite Hd.
  - intros _. unfold details_readable in Hd. unfold Get.
    destruct (nullish issue); simpl; [by eexists|].
    simpl in Hd. apply negb_false_iff in Hd. rewrite Hd. by eexists.
Qed.

Lemma visit_key_readable issues artifact key :
  key_readable issues key = true ->
  visit_key issues networkRecords artifact key
  = Normal (push_all artifact key (contributions networkRecords key issues)).
Proof.
  unfold key_readable, visit_key. intros [Hd Hr]%andb_true_iff.
  rewrite array_map_details_readable by done. simpl.
  by apply for_of_details_readable.
Qed.

Lemma visit_key_unreadable issues artifact key :
  key_readable issues key = false ->
  exists e, visit_key issues networkRecords artifact key = Throw e.
Proof.
  unfold key_readable, visit_key.
  destruct (forallb details_readable issues) eqn:Hd; simpl.
  - intros Hr. rewrite array_map_details_readable by done. simpl.
    rewrite for_of_details_unreadable by done. by eexists.
  - intros _. destruct (array_map_details_unreadable key issues Hd) as [e ->].
    by eexists.
Qed.

Lemma for_of_keys_readable issues keys artifact :
  forallb (key_readable issues) keys = true ->
  for_of keys (visit_key issues networkRecords) artifact
  = Normal (filled networkRecords issues keys artifact).
Proof.
  revert artifact. induction keys as [|key rest IH]; intros a; simpl; [done|].
  intros [Hk Hrest]%andb_true_iff.
  rewrite visit_key_readable by done. simpl. by apply IH.
Qed.

Lemma for_of_keys_unreadable issues keys artifact :
  forallb (key_readable issues) keys = false ->
  exists e, for_of keys (visit_key issues networkRecords) artifact = Throw e.
Proof.
  revert artifact. induction keys as [|key rest IH]; intros a; simpl; [done|].
  destruct (key_readable issues key) eqn:Hk; simpl.
  - intros Hrest. rewrite visit_key_readable by done. simpl. by apply IH.
  - intros _. destruct (visit_key_unreadable issues a key Hk) as [e ->].
    by eexists.
Qed.

Lemma Object_keys_filled issues keys artifact :
  Object_keys (filled networkRecords issues keys artifact) = Object_keys artifact.
Proof.
  unfold filled. revert artifact.
  induction keys as [|key rest IH]; intros a; simpl; [done|].
  by rewrite IH, Object_keys_push_all.
Qed.

Lemma category_filled_other issues keys artifact key :
  ~ In key keys ->
  category key (filled networkRecords issues keys artifact) = category key artifact.
Proof.
  unfold filled. revert artifact.
  induction keys as [|k rest IH]; intros a Hnin; simpl; [done|].
  rewrite IH by (intros ?; apply Hnin; by right).
  apply category_push_all_ne. intros ->. apply Hnin. by left.
Qed.

Lemma category_filled issues keys artifact key :
  NoDup keys -> In key keys -> In key (Object_keys artifact) ->
  category key (filled networkRecords issues keys artifact)
  = category key artifact ++ contributions networkRecords key issues.
Proof.
  revert artifact. induction keys as [|k rest IH]; intros a Hnd Hin Hobj;
    [done|].
  apply NoDup_cons in Hnd as [Hk Hnd].
  change (filled networkRecords issues (k :: rest) a)
    with (filled networkRecords issues rest
            (push_all a k (contributions networkRecords k issues))).
  destruct Hin as [->|Hin].
  - rewrite category_filled_other by (by rewrite <- list_elem_of_In).
    by apply category_push_all_eq.
  - rewrite IH by (by rewrite ?Object_keys_push_all).
    rewrite category_push_all_ne; [done|].
    intros ->. apply Hk. by apply list_elem_of_In.
Qed.

End Loops.

(** ** [_getArtifact] as a whole *)

Section GetArtifact.

Variable this : InspectorIssues.
Variable networkRecords : list NetworkRequest.

Lemma keys_NoDup : NoDup (Object_keys empty_artifact).
Proof. apply (bool_decide_unpack _). by vm_compute. Qed.

Lemma category_empty_artifact key : category key empty_artifact = [].
Proof.
  unfold empty_artifact. cbn [category].
  repeat match goal with
         | |- context [String.eqb ?k key] =>
             destruct (String.eqb k key); [reflexivity|]
         end.
  reflexivity.
Qed.

Lemma well_formed_readable issues :
  well_formed issues = true <->
  forall key, In key (Object_keys empty_artifact) ->
              key_readable issues key = true.
Proof.
  unfold well_formed, key_readable, well_formed_issue.
  rewrite forallb_forall. split.
  - intros Hwf key Hkey.
    apply andb_true_iff; split; apply forallb_forall; intros issue Hin;
      apply Hwf, andb_true_iff in Hin as [Hd Hr]; [done|].
    rewrite forallb_forall in Hr. by apply Hr.
  - intros Hkeys issue Hin. apply andb_true_iff; split.
    + assert (In "sameSiteCookieIssue" (Object_keys empty_artifact)) as Hk
        by (by left).
      apply Hkeys, andb_true_iff in Hk as [Hd _].
      rewrite forallb_forall in Hd. by apply Hd.
    + apply forallb_forall. intros key Hk.
      apply Hkeys, andb_true_iff in Hk as [_ Hr].
      rewrite forallb_forall in Hr. by apply Hr.
Qed.

(** On a buffer whose reads do not throw the artifact is built, and every
    category holds the contributions of the buffer, in buffer order. *)
Lemma getArtifact_well_formed :
  well_formed (_issues this) = true ->
  _getArtifact this networkRecords
  = Normal (map (fun key =>
                   (key, contributions networkRecords key (_issues this)))
              (Object_keys empty_artifact)).
Proof.
  intros Hwf. unfold _getArtifact.
  rewrite for_of_keys_readable
    by (apply forallb_forall; by apply well_formed_readable).
  f_equal.
  rewrite <- (Object_keys_filled networkRecords (_issues this)
                (Object_keys empty_artifact) empty_artifact) at 2.
  apply artifact_ext; rewrite Object_keys_filled; [apply keys_NoDup|].
  intros key Hkey.
  rewrite category_filled by (done || apply keys_NoDup).
  by rewrite category_empty_artifact.
Qed.

(** On any other buffer the build throws. *)
Lemma getArtifact_ill_formed :
  well_formed (_issues this) = false ->
  exists e, _getArtifact this networkRecords = Throw e.
Proof.
  intros Hwf. unfold _getArtifact. apply for_of_keys_unreadable.
  apply not_true_iff_false. intros Hk. apply not_true_iff_false in Hwf.
  apply Hwf, well_formed_readable. by apply forallb_forall.
Qed.

Lemma getArtifact_Normal artifact :
  _getArtifact this networkRecords = Normal artifact ->
  well_formed (_issues this) = true /\
  artifact = map (fun key =>
                    (key, contributions networkRecords key (_issues this)))
               (Object_keys empty_artifact).
Proof.
  intros Hrun. destruct (well_formed (_issues this)) eqn:Hwf.
  - rewrite getArtifact_well_formed in Hrun by done. by injection Hrun.
  - destruct (getArtifact_ill_formed Hwf) as [e He]. congruence.
Qed.

(** What a category of the built artifact holds. *)
Lemma getArtifact_category artifact key :
  _getArtifact this networkRecords = Normal artifact ->
  In key (Object_keys empty_artifact) ->
  category key artifact = contributions networkRecords key (_issues this).
Proof.
  intros [_ ->]%getArtifact_Normal Hkey.
  unfold empty_artifact, Object_keys in Hkey. simpl in Hkey.
  repeat (destruct Hkey as [<-|Hkey]; [done|]). done.
Qed.

End GetArtifact.

(** ** The request filter *)

Lemma find_record_known networkRecords rid :
  is_Some (find_record networkRecords rid) <->
  exists s, rid = VStr s /\ known_request networkRecords s.
Proof.
  unfold find_record, known_request. split.
  - intros [req Hfind]. apply find_some in Hfind as [Hin Heq].
    destruct rid; simpl in Heq; try done.
    apply String.eqb_eq in Heq. eauto.
  - intros (s & -> & req & Hin & Hid).
    destruct (find _ networkRecords) as [found|] eqn:Hfind; [by eexists|].
    apply (find_none _ _ Hfind) in Hin. simpl in Hin.
    rewrite Hid, String.eqb_refl in Hin. done.
Qed.

Lemma request_matches_known networkRecords rid :
  request_matches networkRecords rid = true <->
  exists s, rid = VStr s /\ s <> "" /\ known_request networkRecords s.
Proof.
  unfold request_matches.
  rewrite andb_true_iff, bool_decide_eq_true, find_record_known. split.
  - intros [Ht (s & -> & Hknown)]. exists s. split_and!; [done| |done].
    intros ->. done.
  - intros (s & -> & Hne & Hknown). split; [|by eauto]. simpl.
    apply negb_true_iff. by apply String.eqb_neq.
Qed.

(** The request filter reads the records through their identifiers. *)
Lemma request_matches_same_ids networkRecords1 networkRecords2 rid :
  (forall s, known_request networkRecords1 s <->
             known_request networkRecords2 s) ->
  request_matches networkRecords1 rid = request_matches networkRecords2 rid.
Proof.
  intros Hsame. apply eq_true_iff_eq. rewrite !request_matches_known.
  by setoid_rewrite Hsame.
Qed.

Lemma for_of_ext {A S : Type} (body1 body2 : S -> A -> completion S) xs s :
  (forall s x, body1 s x = body2 s x) ->
  for_of xs body1 s = for_of xs body2 s.
Proof.
  intros Hbody. revert s. induction xs as [|x rest IH]; intros s; simpl;
    [done|].
  rewrite Hbody. destruct (body2 s x); simpl; [apply IH|done].
Qed.

(** A detail is among the contributions when some issue holds it and the
    loop body keeps it. *)
Lemma In_contributions networkRecords key issues detail :
  In detail (contributions networkRecords key issues) <->
  (exists issue, In issue issues /\ subfield key issue = detail) /\
  kept networkRecords detail = true.
Proof.
  unfold contributions, contribution.
  rewrite <- list_elem_of_In, list_elem_of_omap. split.
  - intros (issue & Hin%list_elem_of_In & Hkept).
    destruct (kept networkRecords (subfield key issue)) eqn:Hk; [|done].
    injection Hkept as <-. eauto.
  - intros [(issue & Hin & <-) Hk]. exists issue.
    rewrite list_elem_of_In, Hk. done.
Qed.

(** ** Scenarios *)

(** One cors issue that refers to request [R1]: kept when the records have
    [R1], dropped when there are no records. *)
Example cors_issue_with_known_request :
  let detail := VObj [("request", VObj [("requestId", VStr "R1")])] in
  let this :=
    {| _issues := [VObj [("details", VObj [("corsIssueDetails", detail)])]];
       _onIssueAdded := 0 |} in
  (category "corsIssue" <$>
     _getArtifact this
       [{| requestId := "R1"; url := "https://example.com/";
           statusCode := 200 |}])
  = Normal [detail] /\
  (category "corsIssue" <$> _getArtifact this []) = Normal [].
Proof. split; reflexivity. Qed.

(** One generic issue without a request reference: kept whatever the
    records. *)
Example generic_issue_without_request :
  let detail := VObj [("errorType", VStr "CrossOriginPortal")] in
  let this :=
    {| _issues := [VObj [("details", VObj [("genericIssueDetails", detail)])]];
       _onIssueAdded := 0 |} in
  (category "genericIssue" <$> _getArtifact this []) = Normal [detail].
Proof. reflexivity. Qed.

(** An event without [details] makes the first [map] throw. *)
Example issue_without_details :
  _getArtifact {| _issues := [VObj [("code", VStr "CorsIssue")]];
                  _onIssueAdded := 0 |} []
  = Throw (TypeError "sameSiteCookieIssueDetails").
Proof. reflexivity. Qed.

(** Falsy sub-fields are skipped, truthy ones are pushed whatever their
    shape. *)
Example falsy_and_primitive_subfields :
  let this :=
    {| _issues :=
         [VObj [("details", VObj [("heavyAdIssueDetails", VNum 0);
                                  ("quirksModeIssueDetails", VStr "");
                                  ("deprecationIssueDetails", VStr "x")])]];
       _onIssueAdded := 0 |} in
  (category "heavyAdIssue" <$> _getArtifact this []) = Normal [] /\
  (category "quirksModeIssue" <$> _getArtifact this []) = Normal [] /\
  (category "deprecationIssue" <$> _getArtifact this []) = Normal [VStr "x"].
Proof. split_and!; reflexivity. Qed.

(** A start followed by a stop leaves no listener behind. *)
Example start_then_stop :
  let session :=
    {| listeners := []; calls := []; respond := fun _ => Normal VUndefined |}
  in
  let this := constructor 0 in
  listeners
    (fst (stopInstrumentation this (fst (startInstrumentation this session))))
  = [].
Proof. reflexivity. Qed.

(** ** The claims *)

(** C1, as the specification words it, fails: an empty request identifier
    is falsy, so a detail that refers to the request [""] is dropped even
    when a network record has that very identifier. *)
Lemma request_filter_counterexample :
  let detail := VObj [("request", VObj [("requestId", VStr "")])] in
  let this :=
    {| _issues := [VObj [("details", VObj [("corsIssueDetails", detail)])]];
       _onIssueAdded := 0 |} in
  let networkRecords :=
    [{| requestId := ""; url := "https://example.com/"; statusCode := 200 |}] in
  exists artifact,
    _getArtifact this networkRecords = Normal artifact /\
    carries_request detail = true /\
    ~ (In detail (category "corsIssue" artifact) <->
       exists req, In req networkRecords /\
                   VStr (requestId req) = referenced_id detail).
Proof.
  eexists. split; [by vm_compute|]. split; [by vm_compute|].
  intros [_ Hback]. apply Hback. eexists. split; [by left|done].
Qed.

(** C1, amended: in a built artifact, a truthy detail of a buffered issue
    that has a [request] property of its own is in its category's sequence
    if and only if its request identifier is a non-empty string that is the
    identifier of some network record; a truthy detail without a [request]
    property of its own is always in the sequence. *)
Theorem request_filter this networkRecords artifact key issue detail :
  _getArtifact this networkRecords = Normal artifact ->
  In key (Object_keys empty_artifact) ->
  In issue (_issues this) ->
  subfield key issue = detail ->
  ToBoolean detail = true ->
  (hasOwnProperty detail "request" = true ->
   (In detail (category key artifact) <->
    exists s, referenced_id detail = VStr s /\ s <> "" /\
              known_request networkRecords s)) /\
  (hasOwnProperty detail "request" = false ->
   In detail (category key artifact)).
Proof.
  intros Hrun Hkey Hin Hsub Ht.
  rewrite (getArtifact_category _ _ _ _ Hrun Hkey), In_contributions.
  unfold kept. rewrite Ht. simpl. split; intros Hown; rewrite Hown; simpl.
  - rewrite request_matches_known. split; [by intros [_ Hid]|].
    intros Hid. split; [by exists issue|done].
  - split; [by exists issue|done].
Qed.

(** The filter at work on a detail that refers to a recorded request. *)
Lemma request_filter_witness :
  let kept_detail := VObj [("request", VObj [("requestId", VStr "R1")])] in
  let this :=
    {| _issues :=
         [VObj [("details", VObj [("corsIssueDetails", kept_detail)])]];
       _onIssueAdded := 0 |} in
  let networkRecords :=
    [{| requestId := "R1"; url := "https://example.com/"; statusCode := 200 |}]
  in
  exists artifact,
    _getArtifact this networkRecords = Normal artifact /\
    (In kept_detail (category "corsIssue" artifact) <->
     exists s, referenced_id kept_detail = VStr s /\ s <> "" /\
               known_request networkRecords s).
Proof.
  intros kept_detail this networkRecords.
  destruct (_getArtifact this networkRecords) as [artifact|e] eqn:Hrun;
    [|vm_compute in Hrun; discriminate Hrun].
  exists artifact. split; [reflexivity|].
  refine (proj1 (request_filter this networkRecords artifact "corsIssue"
                   (VObj [("details", VObj [("corsIssueDetails", kept_detail)])])
                   kept_detail Hrun _ _ _ _) _).
  - do 8 right. left. reflexivity.
  - left. reflexivity.
  - reflexivity.
  - reflexivity.
  - reflexivity.
Defined.

(** [well_formed], spelled out: every buffered issue has a [details] that
    can be indexed, and a truthy sub-field with a [request] property of its
    own has a [request] that can be indexed. *)
Lemma well_formed_spec issues :
  well_formed issues = true <->
  forall issue, In issue issues ->
    nullish issue = false /\
    nullish (get_prop issue "details") = false /\
    forall key, In key (Object_keys empty_artifact) ->
      ToBoolean (subfield key issue) = true ->
      hasOwnProperty (subfield key issue) "request" = true ->
      nullish (get_prop (subfield key issue) "request") = false.
Proof.
  unfold well_formed, well_formed_issue, details_readable.
  rewrite forallb_forall.
  split; intros Hwf issue Hin; specialize (Hwf issue Hin).
  - apply andb_true_iff in Hwf as [[Hi Hd]%andb_true_iff Hr].
    apply negb_true_iff in Hi, Hd. split_and!; [done..|].
    intros key Hkey Ht Hown. rewrite forallb_forall in Hr.
    specialize (Hr key Hkey). unfold request_readable, carries_request in Hr.
    rewrite Ht, Hown in Hr. simpl in Hr. by apply negb_true_iff in Hr.
  - destruct Hwf as (Hi & Hd & Hr). rewrite Hi, Hd. cbn [negb andb].
    apply forallb_forall. intros key Hkey. specialize (Hr key Hkey).
    unfold request_readable, carries_request.
    destruct (ToBoolean _); [|done].
    destruct (hasOwnProperty _ _); [|done].
    simpl. by rewrite Hr.
Qed.

(** C2, as the specification words it, fails: a detail whose request
    reference is [null] makes [detail.request.requestId] throw, and no
    artifact is built. *)
Lemma getArtifact_throws_counterexample :
  let this :=
    {| _issues :=
         [VObj [("details",
                 VObj [("corsIssueDetails", VObj [("request", VNull)])])]];
       _onIssueAdded := 0 |} in
  _getArtifact this [] = Throw (TypeError "requestId") /\
  ~ exists artifact, _getArtifact this [] = Normal artifact.
Proof.
  split; [by vm_compute|]. intros [artifact Hrun]. vm_compute in Hrun. done.
Qed.

(** C2, amended: the build completes normally exactly on the buffers in
    which every issue has a [details] value other than [undefined] and
    [null], and every truthy category sub-field with a [request] property
    of its own has a [request] value other than [undefined] and [null]; on
    any other buffer it throws.  When it completes, absent, [null] and
    other falsy sub-fields have been skipped: every detail of the artifact
    is truthy. *)
Theorem getArtifact_completes this networkRecords :
  ((exists artifact, _getArtifact this networkRecords = Normal artifact) <->
   (forall issue, In issue (_issues this) ->
      nullish issue = false /\
      nullish (get_prop issue "details") = false /\
      forall key, In key (Object_keys empty_artifact) ->
        ToBoolean (subfield key issue) = true ->
        hasOwnProperty (subfield key issue) "request" = true ->
        nullish (get_prop (subfield key issue) "request") = false)) /\
  ((~ exists artifact, _getArtifact this networkRecords = Normal artifact) ->
   exists e, _getArtifact this networkRecords = Throw e) /\
  (forall artifact key detail,
     _getArtifact this networkRecords = Normal artifact ->
     In key (Object_keys empty_artifact) ->
     In detail (category key artifact) ->
     ToBoolean detail = true).
Proof.
  split_and!.
  - rewrite <- well_formed_spec. split.
    + by intros [artifact [Hwf _]%getArtifact_Normal].
    + intros Hwf. eexists. by apply getArtifact_well_formed.
  - intros Hnone. destruct (_getArtifact this networkRecords) as [a|e];
      [|by eexists].
    destruct Hnone. by eexists.
  - intros artifact key detail Hrun Hkey.
    rewrite (getArtifact_category _ _ _ _ Hrun Hkey), In_contributions.
    intros [_ Hkept]. unfold kept in Hkept.
    by apply andb_true_iff in Hkept as [Ht _].
Qed.

(** C3: a built artifact has exactly the fifteen category keys, in the
    order of the object literal, each holding a sequence. *)
Theorem getArtifact_keys this networkRecords artifact :
  _getArtifact this networkRecords = Normal artifact ->
  Object_keys artifact
  = [ "sameSiteCookieIssue"; "mixedContentIssue"; "blockedByResponseIssue";
      "heavyAdIssue"; "contentSecurityPolicyIssue"; "sharedArrayBufferIssue";
      "twaQualityEnforcement"; "lowTextContrastIssue"; "corsIssue";
      "attributionReportingIssue"; "quirksModeIssue";
      "navigatorUserAgentIssue"; "wasmCrossOriginModuleSharingIssue";
      "genericIssue"; "deprecationIssue" ].
Proof. by intros [_ ->]%getArtifact_Normal. Qed.

(** The keys of the artifact built from one generic issue. *)
Lemma getArtifact_keys_witness :
  let this :=
    {| _issues :=
         [VObj [("details",
                 VObj [("genericIssueDetails",
                        VObj [("errorType", VStr "CrossOriginPortal")])])]];
       _onIssueAdded := 0 |} in
  exists artifact,
    _getArtifact this [] = Normal artifact /\
    length (Object_keys artifact) = 15.
Proof.
  intros this.
  destruct (_getArtifact this []) as [artifact|e] eqn:Hrun;
    [|vm_compute in Hrun; discriminate Hrun].
  exists artifact. split; [reflexivity|].
  rewrite (getArtifact_keys this [] artifact Hrun). reflexivity.
Defined.

(** C4: the sub-field read for a category is named by the category key
    followed by [Details], except for [wasmCrossOriginModuleSharingIssue],
    whose sub-field has the name of the key itself; and this is the
    property the loop over the keys reads off every [issue.details]. *)
Theorem detailsKey_rule :
  (forall key, key <> "wasmCrossOriginModuleSharingIssue" ->
               detailsKey key = key +:+ "Details") /\
  detailsKey "wasmCrossOriginModuleSharingIssue"
  = "wasmCrossOriginModuleSharingIssue" /\
  map detailsKey (Object_keys empty_artifact)
  = [ "sameSiteCookieIssueDetails"; "mixedContentIssueDetails";
      "blockedByResponseIssueDetails"; "heavyAdIssueDetails";
      "contentSecurityPolicyIssueDetails"; "sharedArrayBufferIssueDetails";
      "twaQualityEnforcementDetails"; "lowTextContrastIssueDetails";
      "corsIssueDetails"; "attributionReportingIssueDetails";
      "quirksModeIssueDetails"; "navigatorUserAgentIssueDetails";
      "wasmCrossOriginModuleSharingIssue"; "genericIssueDetails";
      "deprecationIssueDetails" ] /\
  (forall this networkRecords artifact key detail,
     _getArtifact this networkRecords = Normal artifact ->
     In key (Object_keys empty_artifact) ->
     In detail (category key artifact) ->
     exists issue,
       In issue (_issues this) /\
       detail = get_prop (get_prop issue "details")
                  (if decide (key = "wasmCrossOriginModuleSharingIssue")
                   then key else key +:+ "Details")).
Proof.
  split_and!.
  - intros key Hne. unfold detailsKey.
    by destruct (String.eqb_spec key "wasmCrossOriginModuleSharingIssue").
  - reflexivity.
  - reflexivity.
  - intros this networkRecords artifact key detail Hrun Hkey.
    rewrite (getArtifact_category _ _ _ _ Hrun Hkey), In_contributions.
    intros [(issue & Hin & <-) _]. exists issue. split; [done|].
    unfold subfield, detailsKey.
    destruct (String.eqb_spec key "wasmCrossOriginModuleSharingIssue");
      by case_decide.
Qed.

(** ** Buffer order *)

Section BufferOrder.

Variable networkRecords : list NetworkRequest.
Variable key : string.

Implicit Types (issues : list value) (issue detail : value).

(** The detail an issue contributes sits after the contributions of the
    issues buffered before it. *)
Lemma contributions_lookup issues i issue detail :
  issues !! i = Some issue ->
  contribution networkRecords key issue = Some detail ->
  contributions networkRecords key issues
    !! length (contributions networkRecords key (take i issues))
  = Some detail.
Proof.
  intros Hi Hc.
  assert (contributions networkRecords key issues
          = contributions networkRecords key
              (take i issues ++ issue :: drop (S i) issues)) as ->
    by (by rewrite take_drop_middle).
  unfold contributions. rewrite omap_app. simpl. rewrite Hc.
  by apply list_lookup_middle.
Qed.

Lemma contributions_take_lt issues i j issue detail :
  i < j ->
  issues !! i = Some issue ->
  contribution networkRecords key issue = Some detail ->
  length (contributions networkRecords key (take i issues))
  < length (contributions networkRecords key (take j issues)).
Proof.
  intros Hlt Hi Hc. replace j with (S i + (j - S i)) by lia.
  rewrite <- take_take_drop, (take_S_r _ _ _ Hi).
  unfold contributions. rewrite !omap_app, !length_app. simpl.
  rewrite Hc. simpl. lia.
Qed.

(** A category is filled from the sub-fields of its own name only. *)
Lemma contributions_subfields issues :
  contributions networkRecords key issues
  = omap (fun detail => if kept networkRecords detail then Some detail
                        else None)
      (map (subfield key) issues).
Proof.
  unfold contributions, contribution.
  induction issues as [|issue rest IH]; simpl; [done|].
  destruct (kept networkRecords (subfield key issue)); [f_equal|]; exact IH.
Qed.

Lemma contribution_falsy issue :
  ToBoolean (subfield key issue) = false ->
  contribution networkRecords key issue = None.
Proof. unfold contribution, kept. by intros ->. Qed.

End BufferOrder.

(** A buffer taken apart. *)
Lemma contributions_app networkRecords key issues1 issues2 :
  contributions networkRecords key (issues1 ++ issues2)
  = contributions networkRecords key issues1
    ++ contributions networkRecords key issues2.
Proof. unfold contributions. apply omap_app. Qed.

Lemma well_formed_app issues1 issues2 :
  well_formed (issues1 ++ issues2)
  = well_formed issues1 && well_formed issues2.
Proof. unfold well_formed. apply forallb_app. Qed.

Lemma contributions_cons networkRecords key issue rest :
  contributions networkRecords key (issue :: rest)
  = match contribution networkRecords key issue with
    | Some detail => detail :: contributions networkRecords key rest
    | None => contributions networkRecords key rest
    end.
Proof. reflexivity. Qed.

(** C5: within a category the details stand in the order in which their
    issues were buffered: the sequence is the contributions of the buffer
    from first to last, so when issue [i] comes before issue [j] and both
    contribute, the detail of [i] stands before the detail of [j]. *)
Theorem getArtifact_order this networkRecords artifact key i j ei ej di dj :
  _getArtifact this networkRecords = Normal artifact ->
  In key (Object_keys empty_artifact) ->
  i < j ->
  _issues this !! i = Some ei ->
  _issues this !! j = Some ej ->
  contribution networkRecords key ei = Some di ->
  contribution networkRecords key ej = Some dj ->
  category key artifact
  = omap (contribution networkRecords key) (_issues this) /\
  let p := length (omap (contribution networkRecords key)
                     (take i (_issues this))) in
  let q := length (omap (contribution networkRecords key)
                     (take j (_issues this))) in
  p < q /\
  category key artifact !! p = Some di /\
  category key artifact !! q = Some dj.
Proof.
  intros Hrun Hkey Hlt Hi Hj Hci Hcj.
  rewrite (getArtifact_category _ _ _ _ Hrun Hkey).
  split; [done|]. split_and!.
  - by eapply contributions_take_lt.
  - by eapply contributions_lookup.
  - by eapply contributions_lookup.
Qed.

(** Two generic issues, an unrelated event between them, keep their order. *)
Lemma getArtifact_order_witness :
  let first := VObj [("errorType", VStr "CrossOriginPortal")] in
  let second := VObj [("errorType", VStr "FormLabelForNameError")] in
  let event detail := VObj [("details", VObj [("genericIssueDetails", detail)])]
  in
  let skipped := VObj [("details", VObj [("corsIssueDetails", VNull)])] in
  let this :=
    {| _issues := [event first; skipped; event second]; _onIssueAdded := 0 |}
  in
  exists artifact,
    _getArtifact this [] = Normal artifact /\
    category "genericIssue" artifact !! 0 = Some first /\
    category "genericIssue" artifact !! 1 = Some second.
Proof.
  intros first second event skipped this.
  destruct (_getArtifact this []) as [artifact|e] eqn:Hrun;
    [|vm_compute in Hrun; discriminate Hrun].
  exists artifact. split; [reflexivity|].
  refine (proj2 (proj2 (getArtifact_order this [] artifact "genericIssue"
                          0 2 (event first) (event second) first second
                          Hrun _ _ _ _ _ _))).
  - do 13 right. left. reflexivity.
  - lia.
  - reflexivity.
  - reflexivity.
  - reflexivity.
  - reflexivity.
Defined.

(** C6, as the specification words it, fails: an event with two populated
    sub-fields of which one has a [request] that is [null] makes the build
    throw, so the other field, which alone is processed into its category,
    reaches no category at all. *)
Lemma category_isolation_counterexample :
  let generic := VObj [("errorType", VStr "CrossOriginPortal")] in
  let only := VObj [("details", VObj [("genericIssueDetails", generic)])] in
  let both :=
    VObj [("details", VObj [("corsIssueDetails", VObj [("request", VNull)]);
                            ("genericIssueDetails", generic)])] in
  subfield "genericIssue" both = generic /\
  subfield "genericIssue" only = generic /\
  ToBoolean (subfield "corsIssue" both) = true /\
  (category "genericIssue" <$>
     _getArtifact {| _issues := [only]; _onIssueAdded := 0 |} [])
  = Normal [generic] /\
  _getArtifact {| _issues := [both]; _onIssueAdded := 0 |} []
  = Throw (TypeError "requestId") /\
  ~ exists artifact,
      _getArtifact {| _issues := [both]; _onIssueAdded := 0 |} []
      = Normal artifact /\
      In generic (category "genericIssue" artifact).
Proof.
  split_and!; try reflexivity.
  intros (artifact & Hrun & _). vm_compute in Hrun. discriminate Hrun.
Qed.

(** C6, amended: in a build that returns an artifact, every sub-field of
    an event is processed into the category of its own name and into no
    other.  The buffer before the event and the buffer after it build as
    well, and in every category the artifact holds what the issues before
    give, then the event's sub-field of that category when it is populated
    and kept by the request filter, then what the issues after give: a
    sub-field that is not populated adds nothing, and what the event adds
    to a category depends on its sub-field of that category alone,
    however many others it populates. *)
Theorem category_isolation l pre issue post networkRecords artifact :
  _getArtifact {| _issues := pre ++ issue :: post; _onIssueAdded := l |}
    networkRecords = Normal artifact ->
  exists before after,
    _getArtifact {| _issues := pre; _onIssueAdded := l |} networkRecords
    = Normal before /\
    _getArtifact {| _issues := post; _onIssueAdded := l |} networkRecords
    = Normal after /\
    forall key, In key (Object_keys empty_artifact) ->
      (kept networkRecords (subfield key issue) = true ->
       category key artifact
       = category key before ++ subfield key issue :: category key after) /\
      (kept networkRecords (subfield key issue) = false ->
       category key artifact = category key before ++ category key after) /\
      (ToBoolean (subfield key issue) = false ->
       category key artifact = category key before ++ category key after).
Proof.
  intros Hrun.
  pose proof (getArtifact_Normal _ _ _ Hrun) as [Hwf _].
  cbn [_issues] in Hwf.
  change (issue :: post) with ([issue] ++ post) in Hwf.
  rewrite !well_formed_app, !andb_true_iff in Hwf.
  destruct Hwf as (Hpre & _ & Hpost).
  pose proof (getArtifact_well_formed {| _issues := pre; _onIssueAdded := l |}
                networkRecords Hpre) as Hbefore.
  pose proof (getArtifact_well_formed {| _issues := post; _onIssueAdded := l |}
                networkRecords Hpost) as Hafter.
  eexists _, _. split; [exact Hbefore|]. split; [exact Hafter|].
  intros key Hkey.
  rewrite (getArtifact_category _ _ _ _ Hrun Hkey).
  rewrite (getArtifact_category _ _ _ _ Hbefore Hkey).
  rewrite (getArtifact_category _ _ _ _ Hafter Hkey).
  cbn [_issues]. rewrite contributions_app, contributions_cons.
  unfold contribution. split_and!.
  - by intros ->.
  - by intros ->.
  - intros Hfalsy. unfold kept. by rewrite Hfalsy.
Qed.

(** An issue with two populated sub-fields between two others: each of the
    two lands in its own category. *)
Lemma category_isolation_witness :
  let cookie := VObj [("cookieUrl", VStr "https://example.com/")] in
  let contrast := VObj [("contrastRatio", VNum 2)] in
  let earlier := VObj [("cookieUrl", VStr "https://example.org/")] in
  let both :=
    VObj [("details", VObj [("sameSiteCookieIssueDetails", cookie);
                            ("lowTextContrastIssueDetails", contrast)])] in
  let first :=
    VObj [("details", VObj [("sameSiteCookieIssueDetails", earlier)])] in
  let last := VObj [("details", VObj [])] in
  exists artifact,
    _getArtifact {| _issues := [first] ++ both :: [last]; _onIssueAdded := 0 |}
      [] = Normal artifact /\
    category "sameSiteCookieIssue" artifact = [earlier; cookie] /\
    category "lowTextContrastIssue" artifact = [contrast] /\
    category "corsIssue" artifact = [].
Proof.
  intros cookie contrast earlier both first last.
  destruct (_getArtifact {| _issues := [first] ++ both :: [last];
                            _onIssueAdded := 0 |} [])
    as [artifact|e] eqn:Hrun; [|vm_compute in Hrun; discriminate Hrun].
  destruct (category_isolation 0 [first] both [last] [] artifact Hrun)
    as (before & after & Hbefore & Hafter & Hcat).
  vm_compute in Hbefore, Hafter.
  injection Hbefore as <-. injection Hafter as <-.
  exists artifact. split; [reflexivity|]. split_and!.
  - apply (proj1 (Hcat "sameSiteCookieIssue" ltac:(left; reflexivity))).
    reflexivity.
  - apply (proj1 (Hcat "lowTextContrastIssue"
                    ltac:(do 7 right; left; reflexivity))).
    reflexivity.
  - apply (proj2 (proj2 (Hcat "corsIssue"
                           ltac:(do 8 right; left; reflexivity)))).
    reflexivity.
Defined.

(** ** Runs on a heap *)

Lemma for_of_agree {A S T : Type} (R : S -> T -> Prop)
  (body1 : S -> A -> completion S) (body2 : T -> A -> completion T) xs s t :
  (forall s t x, In x xs -> R s t -> Heap.agree R (body1 s x) (body2 t x)) ->
  R s t ->
  Heap.agree R (for_of xs body1 s) (for_of xs body2 t).
Proof.
  revert s t. induction xs as [|x rest IH]; intros s t Hbody HR;
    cbn [for_of]; [done|].
  pose proof (Hbody s t x (or_introl eq_refl) HR) as Hx.
  destruct (body1 s x) as [s'|e1], (body2 t x) as [t'|e2];
    unfold Heap.agree in Hx; cbn [mbind completion_bind]; try done.
  apply IH; [|done]. intros s0 t0 x0 Hin. apply Hbody. by right.
Qed.

Lemma property_In o key l :
  Heap.property o key = Some l -> In l (map snd o).
Proof.
  induction o as [|[k l0] rest IH]; cbn [Heap.property map snd]; [done|].
  destruct (String.eqb k key); [intros [= ->]; by left|].
  intros Hp. right. by apply IH.
Qed.

Lemma property_is_Some o key :
  In key (map fst o) -> exists l, Heap.property o key = Some l.
Proof.
  induction o as [|[k l0] rest IH]; cbn [Heap.property map fst]; [done|].
  destruct (String.eqb_spec k key) as [->|Hne]; [by eexists|].
  intros [Heq|Hin]; [done|by apply IH].
Qed.

Lemma read_array_push_eq h l v :
  l < length h ->
  Heap.read (Heap.array_push l v h) l = Heap.read h l ++ [v].
Proof.
  intros Hl. unfold Heap.array_push, Heap.read.
  by rewrite list_lookup_insert_eq.
Qed.

Lemma read_array_push_ne h l l' v :
  l <> l' -> Heap.read (Heap.array_push l v h) l' = Heap.read h l'.
Proof.
  intros Hne. unfold Heap.array_push, Heap.read.
  by rewrite list_lookup_insert_ne.
Qed.

Lemma contents_array_push_other o h l v :
  ~ In l (map snd o) ->
  Heap.contents o (Heap.array_push l v h) = Heap.contents o h.
Proof.
  induction o as [|[k l0] rest IH]; cbn [Heap.contents map fst snd];
    intros Hnin; [done|].
  rewrite read_array_push_ne by (intros ->; apply Hnin; by left).
  f_equal. apply IH. intros Hin. apply Hnin. by right.
Qed.

(** A [push] on the heap is a [push] on what the object holds. *)
Lemma contents_array_push o h key l v :
  NoDup (map snd o) ->
  (forall l, In l (map snd o) -> l < length h) ->
  Heap.property o key = Some l ->
  Heap.contents o (Heap.array_push l v h) = push (Heap.contents o h) key v.
Proof.
  induction o as [|[k l0] rest IH];
    cbn [Heap.contents Heap.property map fst snd push]; [done|].
  intros [Hl0 Hnd]%NoDup_cons Hvalid Hp.
  destruct (String.eqb k key) eqn:Hk.
  - injection Hp as <-.
    rewrite read_array_push_eq by (apply Hvalid; by left).
    f_equal. apply contents_array_push_other. by rewrite <- list_elem_of_In.
  - rewrite read_array_push_ne.
    + f_equal. apply IH; [done| |done]. intros l' Hl'. apply Hvalid. by right.
    + intros ->. apply Hl0, list_elem_of_In. by eapply property_In.
Qed.

Lemma represents_push h0 o h a key l v :
  Heap.represents h0 o h a ->
  Heap.property o key = Some l ->
  Heap.represents h0 o (Heap.array_push l v h) (push a key v).
Proof.
  intros (Hc & Hnd & Hvalid & Hframe) Hp.
  pose proof (property_In _ _ _ Hp) as Hl. split_and!.
  - rewrite <- Hc. apply contents_array_push; [done| |done].
    intros l' Hl'. by apply Hvalid.
  - done.
  - intros l' Hl'. unfold Heap.array_push. rewrite length_insert.
    by apply Hvalid.
  - intros l' Hl'. unfold Heap.array_push.
    rewrite list_lookup_insert_ne; [by apply Hframe|].
    intros ->. apply Hvalid in Hl. lia.
Qed.

Lemma visit_detail_agree networkRecords h0 o key h a detail :
  In key (map fst o) ->
  Heap.represents h0 o h a ->
  Heap.agree (Heap.represents h0 o)
    (Heap.visit_detail networkRecords o key h detail)
    (visit_detail networkRecords key a detail).
Proof.
  intros Hkey HR. destruct (property_is_Some o key Hkey) as [l Hp].
  assert (Heap.agree (Heap.represents h0 o)
            (Heap.push o key detail h) (Normal (push a key detail))) as Hpush.
  { unfold Heap.push. rewrite Hp. by apply represents_push. }
  unfold Heap.visit_detail, visit_detail.
  destruct (ToBoolean detail); [|exact HR].
  destruct (hasOwnProperty detail "request"); [|exact Hpush].
  destruct (Get detail "request") as [request|e];
    cbn [mbind completion_bind]; [|done].
  destruct (Get request "requestId") as [rid|e];
    cbn [mbind completion_bind]; [|done].
  destruct (ToBoolean rid && _); [exact Hpush|exact HR].
Qed.

Lemma visit_key_agree networkRecords h0 buffer issues o key h a :
  h0 !! buffer = Some issues ->
  In key (map fst o) ->
  Heap.represents h0 o h a ->
  Heap.agree (Heap.represents h0 o)
    (Heap.visit_key buffer networkRecords o h key)
    (visit_key issues networkRecords a key).
Proof.
  intros Hbuffer Hkey HR. unfold Heap.visit_key, visit_key.
  assert (Heap.read h buffer = issues) as ->.
  { unfold Heap.read. destruct HR as (_ & _ & _ & Hframe).
    rewrite Hframe by (by eapply lookup_lt_Some). by rewrite Hbuffer. }
  destruct (array_map _ issues) as [allDetails|e];
    cbn [mbind completion_bind]; [|done].
  apply for_of_agree; [|done].
  intros h' a' detail _ HR'. by apply visit_detail_agree.
Qed.

Lemma object_literal_spec keys h o h' :
  Heap.object_literal keys h = (o, h') ->
  map fst o = keys /\
  map snd o = seq (length h) (length keys) /\
  h' = h ++ replicate (length keys) [].
Proof.
  revert h o h'. induction keys as [|key rest IH]; intros h o h';
    cbn [Heap.object_literal Heap.new_array].
  - intros [= <- <-]. by rewrite app_nil_r.
  - destruct (Heap.object_literal rest (h ++ [[]])) as [o1 h1] eqn:Hrest.
    intros [= <- <-]. apply IH in Hrest as (Hk & Hl & ->).
    rewrite length_app, Nat.add_1_r in Hl.
    cbn [map fst snd length seq replicate]. rewrite Hk, Hl.
    split_and!; [done..|]. by rewrite <- app_assoc.
Qed.

(** The object literal holds empty arrays, all of them new. *)
Lemma object_literal_represents keys h o h' :
  Heap.object_literal keys h = (o, h') ->
  Heap.represents h o h' (map (fun key => (key, [])) keys).
Proof.
  intros (Hk & Hl & ->)%object_literal_spec. subst keys. split_and!.
  - unfold Heap.contents. rewrite map_map.
    apply map_ext_in. intros [k l] Hin. cbn [fst snd]. f_equal.
    assert (In l (map snd o)) as Hin'
      by (by apply (in_map snd) in Hin).
    rewrite Hl in Hin'. apply in_seq in Hin'. unfold Heap.read.
    rewrite lookup_app_r by lia.
    by rewrite lookup_replicate_2 by lia.
  - rewrite Hl. apply NoDup_ListNoDup, seq_NoDup.
  - intros l. rewrite Hl, in_seq, length_app, length_replicate. lia.
  - intros l Hlt. by rewrite lookup_app_l.
Qed.

(** The run on the heap ends as [_getArtifact] ends on the contents of the
    buffer: with the same exception, or with an object that holds the same
    artifact in arrays of its own, the arrays it found being as they
    were. *)
Lemma getArtifact_agree buffer networkRecords h issues l :
  h !! buffer = Some issues ->
  Heap.agree (fun run a => Heap.represents h (fst run) (snd run) a)
    (Heap._getArtifact buffer networkRecords h)
    (_getArtifact {| _issues := issues; _onIssueAdded := l |} networkRecords).
Proof.
  intros Hbuffer. unfold Heap._getArtifact, _getArtifact. cbn [_issues].
  destruct (Heap.object_literal (Object_keys empty_artifact) h)
    as [o h1] eqn:Hliteral.
  pose proof (object_literal_represents _ _ _ _ Hliteral) as HR.
  apply object_literal_spec in Hliteral as (Hk & _).
  change (map (fun key => (key, [])) (Object_keys empty_artifact))
    with empty_artifact in HR.
  rewrite Hk.
  pose proof (for_of_agree (Heap.represents h o)
                (Heap.visit_key buffer networkRecords o)
                (visit_key issues networkRecords)
                (Object_keys empty_artifact) h1 empty_artifact) as Hloop.
  destruct (for_of _ (Heap.visit_key buffer networkRecords o) h1)
    as [h2|e1], (for_of _ (visit_key issues networkRecords) empty_artifact)
    as [a|e2]; cbn [mbind completion_bind]; unfold Heap.agree in *;
    cbn [fst snd]; apply Hloop; try done;
    intros h' a' key Hkey HR'; apply visit_key_agree; try done;
    by rewrite Hk.
Qed.

(** C7: two runs on buffers with identical contents and on identical
    network records end alike, wherever the buffers are and whatever else
    the heaps hold (the arrays of an earlier run, say): both throw the same
    exception, or both return artifacts that hold the same details under
    the same keys in the same order.  A run writes to arrays of its own
    only: the buffer and every other array it found are as they were.
    What a run returns is what [_getArtifact] gives on the contents of the
    buffer. *)
Theorem getArtifact_deterministic buffer1 buffer2 h1 h2 issues
  networkRecords :
  h1 !! buffer1 = Some issues ->
  h2 !! buffer2 = Some issues ->
  match Heap._getArtifact buffer1 networkRecords h1,
        Heap._getArtifact buffer2 networkRecords h2 with
  | Normal (artifact1, h1'), Normal (artifact2, h2') =>
      Heap.contents artifact1 h1' = Heap.contents artifact2 h2' /\
      (forall l, l < length h1 -> h1' !! l = h1 !! l) /\
      (forall l, l < length h2 -> h2' !! l = h2 !! l)
  | Throw e1, Throw e2 => e1 = e2
  | _, _ => False
  end /\
  Heap.agree (fun run artifact => Heap.contents (fst run) (snd run) = artifact)
    (Heap._getArtifact buffer1 networkRecords h1)
    (_getArtifact {| _issues := issues; _onIssueAdded := 0 |} networkRecords).
Proof.
  intros Hbuffer1 Hbuffer2.
  pose proof (getArtifact_agree buffer1 networkRecords h1 issues 0 Hbuffer1)
    as Hrun1.
  pose proof (getArtifact_agree buffer2 networkRecords h2 issues 0 Hbuffer2)
    as Hrun2.
  unfold Heap.agree in *.
  destruct (Heap._getArtifact buffer1 networkRecords h1) as [[o1 h1']|e1],
    (Heap._getArtifact buffer2 networkRecords h2) as [[o2 h2']|e2],
    (_getArtifact _ networkRecords) as [a|e]; try done.
  - destruct Hrun1 as (Hc1 & _ & _ & Hframe1).
    destruct Hrun2 as (Hc2 & _ & _ & Hframe2).
    cbn [fst snd] in *. split_and!; [congruence|done..].
  - split; [congruence|done].
Qed.

(** A second run, in the heap the first run left. *)
Lemma getArtifact_deterministic_witness :
  let issue :=
    VObj [("details",
           VObj [("mixedContentIssueDetails",
                  VObj [("request", VObj [("requestId", VStr "7.1")])])])] in
  let networkRecords :=
    [{| requestId := "7.1"; url := "http://example.com/a.js";
        statusCode := 200 |}] in
  exists artifact1 h1 artifact2 h2,
    Heap._getArtifact 0 networkRecords [[issue]] = Normal (artifact1, h1) /\
    Heap._getArtifact 0 networkRecords h1 = Normal (artifact2, h2) /\
    Heap.contents artifact1 h1 = Heap.contents artifact2 h2 /\
    h2 !! 0 = Some [issue].
Proof.
  intros issue networkRecords.
  destruct (Heap._getArtifact 0 networkRecords [[issue]])
    as [[artifact1 h1]|e] eqn:Hrun1;
    [|vm_compute in Hrun1; discriminate Hrun1].
  assert (h1 !! 0 = Some [issue]) as Hbuffer
    by (vm_compute in Hrun1; injection Hrun1 as <- <-; reflexivity).
  pose proof (getArtifact_deterministic 0 0 [[issue]] h1 [issue]
                networkRecords eq_refl Hbuffer) as Hsame.
  rewrite Hrun1 in Hsame.
  destruct (Heap._getArtifact 0 networkRecords h1) as [[artifact2 h2]|e]
    eqn:Hrun2; [|destruct Hsame as [[] _]].
  destruct Hsame as ((Hcontents & _ & Hframe) & _).
  exists artifact1, h1, artifact2, h2.
  split_and!; [reflexivity|exact Hrun2|exact Hcontents|].
  rewrite Hframe; [exact Hbuffer|]. by eapply lookup_lt_Some.
Defined.

(** C8: from an empty buffer the build returns the fifteen keys, each with
    an empty sequence, whatever the network records. *)
Theorem getArtifact_empty_buffer this networkRecords :
  _issues this = [] ->
  _getArtifact this networkRecords
  = Normal
      [ ("sameSiteCookieIssue", []); ("mixedContentIssue", []);
        ("blockedByResponseIssue", []); ("heavyAdIssue", []);
        ("contentSecurityPolicyIssue", []); ("sharedArrayBufferIssue", []);
        ("twaQualityEnforcement", []); ("lowTextContrastIssue", []);
        ("corsIssue", []); ("attributionReportingIssue", []);
        ("quirksModeIssue", []); ("navigatorUserAgentIssue", []);
        ("wasmCrossOriginModuleSharingIssue", []); ("genericIssue", []);
        ("deprecationIssue", []) ].
Proof. unfold _getArtifact. by intros ->. Qed.

(** A gatherer fresh from its constructor has an empty buffer. *)
Lemma getArtifact_empty_buffer_witness :
  _getArtifact (constructor 0)
    [{| requestId := "7.1"; url := "http://example.com/a.js";
        statusCode := 200 |}]
  = Normal empty_artifact.
Proof. apply getArtifact_empty_buffer. reflexivity. Defined.

(** C9: [startInstrumentation] calls [on] for [Audits.issueAdded] and then
    sends [Audits.enable], making no other call; when the command is
    rejected the rejection is the outcome, unchanged, and the listener
    registered just before is still registered. *)
Theorem startInstrumentation_rejected this session :
  calls (fst (startInstrumentation this session))
  = calls session ++ [CallOn "Audits.issueAdded" (_onIssueAdded this);
                      CallSendCommand "Audits.enable"] /\
  listeners (fst (startInstrumentation this session))
  = listeners session ++ [("Audits.issueAdded", _onIssueAdded this)] /\
  forall e, respond session "Audits.enable" = Throw e ->
            snd (startInstrumentation this session) = Throw e.
Proof.
  unfold startInstrumentation. simpl. split_and!.
  - by rewrite <- app_assoc.
  - done.
  - by intros e ->.
Qed.

(** A session whose target is closed rejects [Audits.enable]. *)
Lemma startInstrumentation_rejected_witness :
  let session :=
    {| listeners := []; calls := [];
       respond := fun _ => Throw (ProtocolError "Target closed") |} in
  snd (startInstrumentation (constructor 0) session)
  = Throw (ProtocolError "Target closed").
Proof.
  intros session.
  apply (proj2 (proj2 (startInstrumentation_rejected (constructor 0) session))).
  reflexivity.
Defined.

(** C10: the build reads the network records through their request
    identifiers only: two record lists with the same set of identifiers
    give the same outcome on every buffer, whatever the order of the
    records, their number and their other fields. *)
Theorem getArtifact_same_ids this networkRecords1 networkRecords2 :
  (forall s, known_request networkRecords1 s <->
             known_request networkRecords2 s) ->
  _getArtifact this networkRecords1 = _getArtifact this networkRecords2.
Proof.
  intros Hsame. unfold _getArtifact. apply for_of_ext. intros artifact key.
  unfold visit_key. destruct (array_map _ _) as [allDetails|e]; simpl; [|done].
  apply for_of_ext. intros a detail. unfold visit_detail.
  destruct (ToBoolean detail); [|done].
  destruct (hasOwnProperty detail "request"); [|done].
  destruct (Get detail "request") as [request|e]; simpl; [|done].
  destruct (Get request "requestId") as [rid|e]; simpl; [|done].
  pose proof (request_matches_same_ids _ _ rid Hsame) as Hrid.
  unfold request_matches in Hrid. by rewrite Hrid.
Qed.

(** Reordered and repeated records, one with another status code. *)
Lemma getArtifact_same_ids_witness :
  let a := {| requestId := "7.1"; url := "http://example.com/a.js";
              statusCode := 200 |} in
  let a' := {| requestId := "7.1"; url := "http://example.com/a.js";
               statusCode := 304 |} in
  let b := {| requestId := "7.2"; url := "http://example.com/b.css";
              statusCode := 200 |} in
  let this :=
    {| _issues :=
         [VObj [("details",
                 VObj [("mixedContentIssueDetails",
                        VObj [("request",
                               VObj [("requestId", VStr "7.2")])])])]];
       _onIssueAdded := 0 |} in
  _getArtifact this [a; b] = _getArtifact this [b; a'; a; b].
Proof.
  intros a a' b this. apply getArtifact_same_ids.
  intros s. unfold known_request. split.
  - intros (req & [<-|[<-|[]]] & <-).
    + exists a. split; [|reflexivity]. right. right. left. reflexivity.
    + exists b. split; [|reflexivity]. left. reflexivity.
  - intros (req & [<-|[<-|[<-|[<-|[]]]]] & <-).
    + exists b. split; [|reflexivity]. right. left. reflexivity.
    + exists a. split; [|reflexivity]. left. reflexivity.
    + exists a. split; [|reflexivity]. left. reflexivity.
    + exists b. split; [|reflexivity]. right. left. reflexivity.
Defined.

(** * Further properties of the gatherer *)

(** ** The buffer and the events *)

Lemma well_formed_nullish issue :
  nullish issue = true -> well_formed [issue] = false.
Proof.
  intros Hn. unfold well_formed, well_formed_issue, details_readable.
  cbn [forallb]. by rewrite Hn.
Qed.

Lemma contributions_length networkRecords key issues :
  length (contributions networkRecords key issues) <= length issues.
Proof.
  induction issues as [|issue rest IH]; [done|].
  change (contributions networkRecords key (issue :: rest))
    with (match contribution networkRecords key issue with
          | Some detail => detail :: contributions networkRecords key rest
          | None => contributions networkRecords key rest
          end).
  destruct (contribution networkRecords key issue); simpl; lia.
Qed.

(** X1: the callback buffers the [issue] of every event it is given, in
    the order of arrival, after what the buffer already holds; it drops,
    reorders and inspects nothing, and leaves the bound callback alone. *)
Theorem onIssueAdded_in_order this entries :
  Forall (fun entry => nullish entry = false) entries ->
  for_of entries onIssueAdded this
  = Normal {| _issues := _issues this
                         ++ map (fun entry => get_prop entry "issue") entries;
              _onIssueAdded := _onIssueAdded this |}.
Proof.
  intros Hentries. revert this.
  induction Hentries as [|entry rest Hentry _ IH]; intros this.
  - simpl. rewrite app_nil_r. by destruct this.
  - cbn [for_of map].
    assert (onIssueAdded this entry
            = Normal {| _issues := _issues this ++ [get_prop entry "issue"];
                        _onIssueAdded := _onIssueAdded this |}) as ->
      by (unfold onIssueAdded, Get; by rewrite Hentry).
    cbn [mbind completion_bind]. rewrite IH. simpl. by rewrite <- app_assoc.
Qed.

(** Two events delivered to a fresh gatherer. *)
Lemma onIssueAdded_in_order_witness :
  let issue1 := VObj [("code", VStr "CorsIssue")] in
  let issue2 := VObj [("code", VStr "GenericIssue")] in
  for_of [VObj [("issue", issue1)]; VObj [("issue", issue2)]] onIssueAdded
    (constructor 3)
  = Normal {| _issues := [issue1; issue2]; _onIssueAdded := 3 |}.
Proof.
  intros issue1 issue2.
  apply (onIssueAdded_in_order (constructor 3)
           [VObj [("issue", issue1)]; VObj [("issue", issue2)]]).
  repeat constructor.
Defined.

Lemma onIssueAdded_grows entries this this' :
  for_of entries onIssueAdded this = Normal this' ->
  exists more, _issues this' = _issues this ++ more.
Proof.
  revert this. induction entries as [|entry rest IH]; intros this;
    cbn [for_of].
  - intros [= <-]. exists []. by rewrite app_nil_r.
  - destruct (onIssueAdded this entry) as [next|e] eqn:Hnext;
      cbn [mbind completion_bind]; [|done].
    intros [more Hmore]%IH. unfold onIssueAdded, Get in Hnext.
    destruct (nullish entry); [done|]. injection Hnext as <-.
    cbn [_issues] in Hmore. eexists. by rewrite Hmore, <- app_assoc.
Qed.

(** X2: the callback does not look at what it buffers.  An event without
    an [issue] is buffered as [undefined], and from then on every build
    throws, whatever was buffered before, whatever events arrive later and
    whatever the network records. *)
Theorem onIssueAdded_without_issue this entry :
  nullish entry = false ->
  nullish (get_prop entry "issue") = true ->
  exists this',
    onIssueAdded this entry = Normal this' /\
    _issues this' = _issues this ++ [get_prop entry "issue"] /\
    forall later this'' networkRecords,
      for_of later onIssueAdded this' = Normal this'' ->
      exists e, _getArtifact this'' networkRecords = Throw e.
Proof.
  intros Hentry Hissue. unfold onIssueAdded at 1, Get. rewrite Hentry.
  cbn [mbind completion_bind negb]. eexists. split; [done|]. split; [done|].
  intros later this'' networkRecords [more Hmore]%onIssueAdded_grows.
  apply getArtifact_ill_formed. rewrite Hmore. cbn [_issues].
  rewrite !well_formed_app, (well_formed_nullish _ Hissue).
  by rewrite andb_false_r.
Qed.

(** An event that is an empty object, followed by a well-formed one. *)
Lemma onIssueAdded_without_issue_witness :
  let generic :=
    VObj [("issue",
           VObj [("details",
                  VObj [("genericIssueDetails",
                         VObj [("errorType", VStr "CrossOriginPortal")])])])]
  in
  exists this' this'',
    onIssueAdded (constructor 0) (VObj []) = Normal this' /\
    for_of [generic] onIssueAdded this' = Normal this'' /\
    length (_issues this'') = 2 /\
    exists e, _getArtifact this'' [] = Throw e.
Proof.
  intros generic.
  destruct (onIssueAdded_without_issue (constructor 0) (VObj [])
              eq_refl eq_refl) as (this' & Hadded & _ & Hthrows).
  destruct (for_of [generic] onIssueAdded this') as [this''|e] eqn:Hlater.
  - exists this', this''. split; [exact Hadded|]. split; [exact Hlater|].
    split; [|exact (Hthrows [generic] this'' [] Hlater)].
    vm_compute in Hadded. injection Hadded as <-.
    vm_compute in Hlater. injection Hlater as <-. reflexivity.
  - vm_compute in Hadded. injection Hadded as <-.
    vm_compute in Hlater. discriminate Hlater.
Defined.

(** X3: building from two buffers put end to end gives, in every
    category, the details of the first buffer followed by those of the
    second. *)
Theorem getArtifact_append l issues1 issues2 networkRecords
  artifact1 artifact2 :
  _getArtifact {| _issues := issues1; _onIssueAdded := l |} networkRecords
  = Normal artifact1 ->
  _getArtifact {| _issues := issues2; _onIssueAdded := l |} networkRecords
  = Normal artifact2 ->
  exists artifact,
    _getArtifact {| _issues := issues1 ++ issues2; _onIssueAdded := l |}
      networkRecords = Normal artifact /\
    forall key, In key (Object_keys empty_artifact) ->
      category key artifact
      = category key artifact1 ++ category key artifact2.
Proof.
  intros Hrun1 Hrun2.
  pose proof (getArtifact_Normal _ _ _ Hrun1) as [Hwf1 _].
  pose proof (getArtifact_Normal _ _ _ Hrun2) as [Hwf2 _].
  simpl in Hwf1, Hwf2.
  assert (well_formed (issues1 ++ issues2) = true) as Hwf
    by (by rewrite well_formed_app, Hwf1, Hwf2).
  eexists. split; [by apply getArtifact_well_formed|].
  intros key Hkey.
  rewrite (getArtifact_category _ _ _ _ Hrun1 Hkey).
  rewrite (getArtifact_category _ _ _ _ Hrun2 Hkey).
  rewrite (getArtifact_category _ _ _ key
             (getArtifact_well_formed
                {| _issues := issues1 ++ issues2; _onIssueAdded := l |}
                networkRecords Hwf) Hkey).
  apply contributions_app.
Qed.

(** A cors issue in one buffer, a generic issue and a cors issue in the
    other. *)
Lemma getArtifact_append_witness :
  let cors id :=
    VObj [("details",
           VObj [("corsIssueDetails",
                  VObj [("request", VObj [("requestId", VStr id)])])])] in
  let generic :=
    VObj [("details",
           VObj [("genericIssueDetails",
                  VObj [("errorType", VStr "CrossOriginPortal")])])] in
  let networkRecords :=
    [{| requestId := "7.1"; url := "http://example.com/a.js";
        statusCode := 200 |};
     {| requestId := "7.2"; url := "http://example.com/b.css";
        statusCode := 200 |}] in
  exists artifact,
    _getArtifact {| _issues := [cors "7.1"] ++ [generic; cors "7.2"];
                    _onIssueAdded := 0 |} networkRecords = Normal artifact /\
    length (category "corsIssue" artifact) = 2.
Proof.
  intros cors generic networkRecords.
  destruct (_getArtifact {| _issues := [cors "7.1"]; _onIssueAdded := 0 |}
              networkRecords) as [artifact1|e] eqn:Hrun1;
    [|vm_compute in Hrun1; discriminate Hrun1].
  destruct (_getArtifact {| _issues := [generic; cors "7.2"];
                            _onIssueAdded := 0 |}
              networkRecords) as [artifact2|e] eqn:Hrun2;
    [|vm_compute in Hrun2; discriminate Hrun2].
  destruct (getArtifact_append 0 [cors "7.1"] [generic; cors "7.2"]
              networkRecords artifact1 artifact2 Hrun1 Hrun2)
    as (artifact & Hrun & Hcat).
  exists artifact. split; [exact Hrun|].
  rewrite (Hcat "corsIssue") by (do 8 right; left; reflexivity).
  vm_compute in Hrun1, Hrun2.
  injection Hrun1 as <-. injection Hrun2 as <-. reflexivity.
Defined.

(** X4: an event that arrives later changes nothing of what the earlier
    events gave: when the build after the event succeeds, so does the
    build before it, every category of the earlier artifact is the
    beginning of the same category of the later one, and the event added at
    most one detail to it. *)
Theorem onIssueAdded_extends this entry this' networkRecords artifact' :
  onIssueAdded this entry = Normal this' ->
  _getArtifact this' networkRecords = Normal artifact' ->
  exists artifact,
    _getArtifact this networkRecords = Normal artifact /\
    forall key, In key (Object_keys empty_artifact) ->
      category key artifact `prefix_of` category key artifact' /\
      length (category key artifact') <= S (length (category key artifact)).
Proof.
  unfold onIssueAdded, Get. destruct (nullish entry); simpl; [done|].
  intros [= <-] Hrun'.
  pose proof (getArtifact_Normal _ _ _ Hrun') as [Hwf' _].
  simpl in Hwf'. rewrite well_formed_app in Hwf'.
  apply andb_true_iff in Hwf' as [Hwf _].
  eexists. split; [by apply getArtifact_well_formed|].
  intros key Hkey.
  rewrite (getArtifact_category _ _ _ _ Hrun' Hkey).
  rewrite (getArtifact_category _ _ _ key
             (getArtifact_well_formed this networkRecords Hwf) Hkey).
  cbn [_issues]. rewrite contributions_app. split; [by eexists|].
  rewrite length_app.
  pose proof (contributions_length networkRecords key
                [get_prop entry "issue"]) as Hlen.
  cbn [length] in Hlen. lia.
Qed.

(** A second generic issue after a first. *)
Lemma onIssueAdded_extends_witness :
  let generic error :=
    VObj [("details",
           VObj [("genericIssueDetails", VObj [("errorType", VStr error)])])]
  in
  let this :=
    {| _issues := [generic "CrossOriginPortal"]; _onIssueAdded := 0 |} in
  exists artifact,
    _getArtifact this [] = Normal artifact /\
    category "genericIssue" artifact
    `prefix_of` [VObj [("errorType", VStr "CrossOriginPortal")];
                 VObj [("errorType", VStr "FormLabelForNameError")]].
Proof.
  intros generic this.
  destruct (onIssueAdded_extends this
              (VObj [("issue", generic "FormLabelForNameError")])
              {| _issues := [generic "CrossOriginPortal";
                             generic "FormLabelForNameError"];
                 _onIssueAdded := 0 |}
              []
              (map (fun key =>
                      (key, contributions [] key
                              [generic "CrossOriginPortal";
                               generic "FormLabelForNameError"]))
                 (Object_keys empty_artifact))
              eq_refl eq_refl) as (artifact & Hrun & Hcat).
  exists artifact. split; [exact Hrun|].
  apply (Hcat "genericIssue"). do 13 right. left. reflexivity.
Defined.

(** ** The artifact and the network records *)

Lemma kept_more_records networkRecords networkRecords' detail :
  (forall s, known_request networkRecords s ->
             known_request networkRecords' s) ->
  kept networkRecords detail = true ->
  kept networkRecords' detail = true.
Proof.
  intros Hmore. unfold kept. rewrite !andb_true_iff, !orb_true_iff.
  intros [Ht [Hown|Hid]]; (split; [done|]); [by left|right].
  apply request_matches_known in Hid as (s & Hs & Hne & Hknown).
  apply request_matches_known. exists s. split_and!; [done..|by apply Hmore].
Qed.

Lemma kept_no_records detail :
  kept [] detail
  = ToBoolean detail && negb (hasOwnProperty detail "request").
Proof.
  unfold kept, request_matches, find_record. cbn [find].
  by rewrite bool_decide_eq_false_2, andb_false_r, orb_false_r
    by (by intros [? ?]).
Qed.

Lemma kept_request_free networkRecords networkRecords' detail :
  carries_request detail = false ->
  kept networkRecords detail = kept networkRecords' detail.
Proof.
  unfold carries_request, kept.
  destruct (ToBoolean detail); [|done]. simpl. by intros ->.
Qed.

Lemma contributions_ext networkRecords networkRecords' key issues :
  (forall issue, In issue issues ->
     kept networkRecords (subfield key issue)
     = kept networkRecords' (subfield key issue)) ->
  contributions networkRecords key issues
  = contributions networkRecords' key issues.
Proof.
  induction issues as [|issue rest IH]; intros Hkept; [done|].
  rewrite !contributions_cons. unfold contribution.
  rewrite <- (Hkept issue) by (by left).
  rewrite IH by (intros ? ?; apply Hkept; by right). done.
Qed.

Lemma contributions_sublist networkRecords networkRecords' key issues :
  (forall s, known_request networkRecords s ->
             known_request networkRecords' s) ->
  contributions networkRecords key issues
  `sublist_of` contributions networkRecords' key issues.
Proof.
  intros Hmore. induction issues as [|issue rest IH]; [done|].
  rewrite !contributions_cons. unfold contribution.
  destruct (kept networkRecords (subfield key issue)) eqn:Hkept.
  - rewrite (kept_more_records _ _ _ Hmore Hkept). by apply sublist_skip.
  - destruct (kept networkRecords' (subfield key issue)); [|done].
    by apply sublist_cons.
Qed.

(** X5: more network records never lose a detail.  When every request
    identifier of one record list is also in another, the build with the
    larger list keeps, in every category, all the details the build with
    the smaller one keeps, in the same order. *)
Theorem getArtifact_more_records this networkRecords networkRecords'
  artifact :
  (forall s, known_request networkRecords s ->
             known_request networkRecords' s) ->
  _getArtifact this networkRecords = Normal artifact ->
  exists artifact',
    _getArtifact this networkRecords' = Normal artifact' /\
    forall key, In key (Object_keys empty_artifact) ->
      category key artifact `sublist_of` category key artifact'.
Proof.
  intros Hmore Hrun.
  pose proof (getArtifact_Normal _ _ _ Hrun) as [Hwf _].
  eexists. split; [by apply getArtifact_well_formed|].
  intros key Hkey.
  rewrite (getArtifact_category _ _ _ _ Hrun Hkey).
  rewrite (getArtifact_category _ _ _ key
             (getArtifact_well_formed this networkRecords' Hwf) Hkey).
  by apply contributions_sublist.
Qed.

(** One record against two: the detail kept with one record is kept with
    two, before the detail that the second record lets in. *)
Lemma getArtifact_more_records_witness :
  let detail id := VObj [("request", VObj [("requestId", VStr id)])] in
  let issue id :=
    VObj [("details", VObj [("mixedContentIssueDetails", detail id)])] in
  let this := {| _issues := [issue "7.2"; issue "7.1"]; _onIssueAdded := 0 |}
  in
  let record1 := {| requestId := "7.1"; url := "http://example.com/a.js";
                    statusCode := 200 |} in
  let record2 := {| requestId := "7.2"; url := "http://example.com/b.css";
                    statusCode := 200 |} in
  exists artifact artifact',
    _getArtifact this [record1] = Normal artifact /\
    _getArtifact this [record2; record1] = Normal artifact' /\
    category "mixedContentIssue" artifact = [detail "7.1"] /\
    category "mixedContentIssue" artifact' = [detail "7.2"; detail "7.1"] /\
    category "mixedContentIssue" artifact
    `sublist_of` category "mixedContentIssue" artifact'.
Proof.
  intros detail issue this record1 record2.
  destruct (_getArtifact this [record1]) as [artifact|e] eqn:Hrun;
    [|vm_compute in Hrun; discriminate Hrun].
  destruct (getArtifact_more_records this [record1] [record2; record1]
              artifact) as (artifact' & Hrun' & Hsub).
  - intros s (req & [<-|[]] & <-). exists record1.
    split; [right; left|]; reflexivity.
  - exact Hrun.
  - exists artifact, artifact'. split; [reflexivity|]. split; [exact Hrun'|].
    split_and!.
    + vm_compute in Hrun. injection Hrun as <-. reflexivity.
    + vm_compute in Hrun'. injection Hrun' as <-. reflexivity.
    + apply Hsub. do 1 right. left. reflexivity.
Defined.

(** X6: without any network record the build keeps exactly the truthy
    sub-fields that have no [request] property of their own: every detail
    that refers to a request is dropped. *)
Theorem getArtifact_no_records this artifact key :
  _getArtifact this [] = Normal artifact ->
  In key (Object_keys empty_artifact) ->
  category key artifact
  = List.filter
      (fun detail => ToBoolean detail
                     && negb (hasOwnProperty detail "request"))
      (map (subfield key) (_issues this)).
Proof.
  intros Hrun Hkey. rewrite (getArtifact_category _ _ _ _ Hrun Hkey).
  induction (_issues this) as [|issue rest IH]; [done|].
  rewrite contributions_cons. unfold contribution.
  cbn [map List.filter]. rewrite kept_no_records.
  destruct (ToBoolean _ && _); by rewrite IH.
Qed.

(** A buffer with a request-bearing cors issue only. *)
Lemma getArtifact_no_records_witness :
  let detail := VObj [("request", VObj [("requestId", VStr "7.1")])] in
  let this :=
    {| _issues := [VObj [("details", VObj [("corsIssueDetails", detail)])]];
       _onIssueAdded := 0 |} in
  exists artifact,
    _getArtifact this [] = Normal artifact /\
    category "corsIssue" artifact = [].
Proof.
  intros detail this.
  destruct (_getArtifact this []) as [artifact|e] eqn:Hrun;
    [|vm_compute in Hrun; discriminate Hrun].
  exists artifact. split; [reflexivity|].
  rewrite (getArtifact_no_records this artifact "corsIssue" Hrun)
    by (do 8 right; left; reflexivity).
  reflexivity.
Defined.

(** X7: the network records matter only to the details that refer to a
    request.  A category in which no buffered sub-field is truthy with a
    [request] property of its own comes out the same whatever the
    records. *)
Theorem getArtifact_request_free this networkRecords networkRecords'
  artifact artifact' key :
  _getArtifact this networkRecords = Normal artifact ->
  _getArtifact this networkRecords' = Normal artifact' ->
  In key (Object_keys empty_artifact) ->
  (forall issue, In issue (_issues this) ->
                 carries_request (subfield key issue) = false) ->
  category key artifact = category key artifact'.
Proof.
  intros Hrun Hrun' Hkey Hfree.
  rewrite (getArtifact_category _ _ _ _ Hrun Hkey).
  rewrite (getArtifact_category _ _ _ _ Hrun' Hkey).
  apply contributions_ext. intros issue Hin.
  by apply kept_request_free, Hfree.
Qed.

(** The generic category of a buffer whose cors issue refers to a
    request. *)
Lemma getArtifact_request_free_witness :
  let cors :=
    VObj [("details",
           VObj [("corsIssueDetails",
                  VObj [("request", VObj [("requestId", VStr "7.1")])])])] in
  let generic :=
    VObj [("details",
           VObj [("genericIssueDetails",
                  VObj [("errorType", VStr "CrossOriginPortal")])])] in
  let this := {| _issues := [cors; generic]; _onIssueAdded := 0 |} in
  let record := {| requestId := "7.1"; url := "http://example.com/a.js";
                   statusCode := 200 |} in
  exists artifact artifact',
    _getArtifact this [] = Normal artifact /\
    _getArtifact this [record] = Normal artifact' /\
    category "genericIssue" artifact = category "genericIssue" artifact'.
Proof.
  intros cors generic this record.
  destruct (_getArtifact this []) as [artifact|e] eqn:Hrun;
    [|vm_compute in Hrun; discriminate Hrun].
  destruct (_getArtifact this [record]) as [artifact'|e] eqn:Hrun';
    [|vm_compute in Hrun'; discriminate Hrun'].
  exists artifact, artifact'. split; [reflexivity|]. split; [reflexivity|].
  apply (getArtifact_request_free this [] [record] artifact artifact'
           "genericIssue" Hrun Hrun').
  - do 13 right. left. reflexivity.
  - intros issue [<-|[<-|[]]]; reflexivity.
Defined.

Lemma contributions_count networkRecords key issues :
  length (contributions networkRecords key issues)
  = length (List.filter
              (fun issue => kept networkRecords (subfield key issue)) issues).
Proof.
  induction issues as [|issue rest IH]; [done|].
  rewrite contributions_cons. unfold contribution. cbn [List.filter].
  destruct (kept networkRecords (subfield key issue)); simpl; by rewrite IH.
Qed.

(** X9: a category holds one detail for each buffered issue whose
    sub-field the loop keeps, repeated issues included: nothing is merged,
    and a category never holds more details than issues were buffered. *)
Theorem category_length this networkRecords artifact key :
  _getArtifact this networkRecords = Normal artifact ->
  In key (Object_keys empty_artifact) ->
  length (category key artifact)
  = length (List.filter
              (fun issue => kept networkRecords (subfield key issue))
              (_issues this)) /\
  length (category key artifact) <= length (_issues this).
Proof.
  intros Hrun Hkey. rewrite (getArtifact_category _ _ _ _ Hrun Hkey).
  split; [apply contributions_count|apply contributions_length].
Qed.

(** The same issue buffered twice. *)
Lemma category_length_witness :
  let generic :=
    VObj [("details",
           VObj [("genericIssueDetails",
                  VObj [("errorType", VStr "CrossOriginPortal")])])] in
  let this := {| _issues := [generic; generic]; _onIssueAdded := 0 |} in
  exists artifact,
    _getArtifact this [] = Normal artifact /\
    length (category "genericIssue" artifact) = 2.
Proof.
  intros generic this.
  destruct (_getArtifact this []) as [artifact|e] eqn:Hrun;
    [|vm_compute in Hrun; discriminate Hrun].
  exists artifact. split; [reflexivity|].
  rewrite (proj1 (category_length this [] artifact "genericIssue" Hrun
                    ltac:(do 13 right; left; reflexivity))).
  reflexivity.
Defined.

(** ** Where the build throws *)

Lemma for_of_details_throw_same networkRecords networkRecords' key details
  artifact artifact' e :
  for_of details (visit_detail networkRecords key) artifact = Throw e ->
  for_of details (visit_detail networkRecords' key) artifact' = Throw e.
Proof.
  revert artifact artifact'.
  induction details as [|detail rest IH]; intros a a'; cbn [for_of]; [done|].
  destruct (request_readable detail) eqn:Hr.
  - rewrite !visit_detail_readable by done. cbn [mbind completion_bind].
    apply IH.
  - by rewrite !visit_detail_unreadable by done.
Qed.

Lemma visit_key_throw_same issues networkRecords networkRecords' key
  artifact artifact' e :
  visit_key issues networkRecords artifact key = Throw e ->
  visit_key issues networkRecords' artifact' key = Throw e.
Proof.
  unfold visit_key.
  destruct (array_map _ issues) as [details|e'];
    cbn [mbind completion_bind]; [|done].
  apply for_of_details_throw_same.
Qed.

Lemma visit_key_Normal_both issues networkRecords networkRecords' key
  artifact artifact' filled :
  visit_key issues networkRecords artifact key = Normal filled ->
  exists filled',
    visit_key issues networkRecords' artifact' key = Normal filled'.
Proof.
  destruct (key_readable issues key) eqn:Hkey.
  - intros _. rewrite visit_key_readable by done. by eexists.
  - destruct (visit_key_unreadable networkRecords issues artifact key Hkey)
      as [e ->]. done.
Qed.

Lemma for_of_keys_throw_same issues networkRecords networkRecords' keys
  artifact artifact' e :
  for_of keys (visit_key issues networkRecords) artifact = Throw e ->
  for_of keys (visit_key issues networkRecords') artifact' = Throw e.
Proof.
  revert artifact artifact'.
  induction keys as [|key rest IH]; intros a a'; cbn [for_of]; [done|].
  destruct (visit_key issues networkRecords a key) as [a1|e1] eqn:Hkey;
    cbn [mbind completion_bind].
  - destruct (visit_key_Normal_both _ _ networkRecords' _ _ a' _ Hkey)
      as [a1' ->].
    cbn [mbind completion_bind]. apply IH.
  - intros [= <-].
    by rewrite (visit_key_throw_same _ _ networkRecords' _ _ a' _ Hkey).
Qed.

(** X8: whether the build throws, and the error it throws, do not depend
    on the network records. *)
Theorem getArtifact_throw_same this networkRecords networkRecords' e :
  _getArtifact this networkRecords = Throw e <->
  _getArtifact this networkRecords' = Throw e.
Proof. unfold _getArtifact. split; apply for_of_keys_throw_same. Qed.

(** ** The session *)

(** X10: [stopInstrumentation] calls [off] and then sends
    [Audits.disable], making no other call; it passes [off] the event name
    and the listener that [startInstrumentation] passed [on], so that a
    start followed by a stop makes four calls, in this order, whatever the
    session answers; and the answer to [Audits.disable] is the outcome: a
    rejection unchanged, a result dropped. *)
Theorem stopInstrumentation_calls this session :
  calls (fst (stopInstrumentation this session))
  = calls session ++ [CallOff "Audits.issueAdded" (_onIssueAdded this);
                      CallSendCommand "Audits.disable"] /\
  calls (fst (stopInstrumentation this
                (fst (startInstrumentation this session))))
  = calls session ++ [CallOn "Audits.issueAdded" (_onIssueAdded this);
                      CallSendCommand "Audits.enable";
                      CallOff "Audits.issueAdded" (_onIssueAdded this);
                      CallSendCommand "Audits.disable"] /\
  (forall e, respond session "Audits.disable" = Throw e ->
             snd (stopInstrumentation this session) = Throw e) /\
  (forall result, respond session "Audits.disable" = Normal result ->
                  snd (stopInstrumentation this session) = Normal tt).
Proof.
  unfold stopInstrumentation, startInstrumentation. simpl. split_and!.
  - by rewrite <- app_assoc.
  - by rewrite <- !app_assoc.
  - by intros e ->.
  - by intros result ->.
Qed.

(** X11: [afterPass] stops the instrumentation before it builds.  It
    makes the calls of [stopInstrumentation] and no other; when
    [Audits.disable] is rejected it ends with that rejection and builds no
    artifact, whatever the buffer; otherwise it ends as [getArtifact] does
    when the network records resolve to [loadData.networkRecords], that
    is, as [_getArtifact] does on them.  So it returns an artifact exactly
    when the command is accepted and no read of the buffer throws. *)
Theorem afterPass_outcome this session networkRecords :
  fst (afterPass this session networkRecords)
  = fst (stopInstrumentation this session) /\
  (forall e, respond session "Audits.disable" = Throw e ->
             snd (afterPass this session networkRecords) = Throw e) /\
  (forall result, respond session "Audits.disable" = Normal result ->
     snd (afterPass this session networkRecords)
     = getArtifact this (Normal networkRecords) /\
     snd (afterPass this session networkRecords)
     = _getArtifact this networkRecords) /\
  ((exists artifact,
      snd (afterPass this session networkRecords) = Normal artifact) <->
   (exists result, respond session "Audits.disable" = Normal result) /\
   well_formed (_issues this) = true).
Proof.
  unfold afterPass, stopInstrumentation, getArtifact. simpl. split_and!.
  - done.
  - by intros e ->.
  - by intros result ->.
  - destruct (respond session "Audits.disable") as [result|e]; simpl.
    + split.
      * intros [artifact [Hwf _]%getArtifact_Normal]. split; [by eexists|done].
      * intros [_ Hwf]. eexists. by apply getArtifact_well_formed.
    + split; [by intros [? ?]|by intros [[? ?] _]].
Qed.

(** A session that rejects [Audits.disable] loses the artifact of a
    buffer that would build. *)
Lemma afterPass_outcome_witness :
  let session :=
    {| listeners := [("Audits.issueAdded", 0)]; calls := [];
       respond := fun _ => Throw (ProtocolError "Target closed") |} in
  snd (afterPass (constructor 0) session [])
  = Throw (ProtocolError "Target closed").
Proof.
  intros session.
  apply (proj1 (proj2 (afterPass_outcome (constructor 0) session []))).
  reflexivity.
Defined.
